(** * LifeQuery front-end: SSE client, chat reducer, settings save, chat filter

    A shallow embedding of the TypeScript sources
      frontend/src/api/client.ts   (apiFetch, parseSseLine, apiStream)
      frontend/src/api/data.ts     (importJson)
      frontend/src/api/chat.ts     (streamChat)
      the chat tab                 (messagesReducer, handleSend, handleStop)
      the settings tab             (handleSave)
      the data tab                 (filteredChats)
    followed by the properties established about them.

    Conventions of the embedding.
    - A JavaScript string is the list of its UTF-16 code units ([list N]).
      [TextDecoder] is not modelled: a response body is given as the list
      of text chunks the reader delivers after decoding, or is absent.
    - An async generator is the list of the values it yields, in order,
      together with the way it ends (return or throw).
    - [JSON.parse], [Number::toString] and [String.prototype.toLowerCase]
      are parameters of the definitions that call them; [Json.parse] is a
      reference implementation used to run the definitions on examples. *)

From Stdlib Require Import ZArith NArith Ascii String.
From Stdlib Require Import Numbers.DecimalString Numbers.DecimalZ.
From stdpp Require Import base option list gmap.

Set Warnings "-register-all".
Local Open Scope N_scope.

(** ** JavaScript values and the string primitives the sources use *)

Module Js.

(** UTF-16 code units. *)
Abbreviation jsstring := (list N).

(** A string literal of the source text (ASCII only). *)
Definition u (s : string) : jsstring :=
  map N_of_ascii (list_ascii_of_string s).

(** WhiteSpace and LineTerminator code points, the set that
    [String.prototype.trim] strips. *)
Definition isWhiteSpace (c : N) : bool :=
  (c =? 9) || (c =? 10) || (c =? 11) || (c =? 12) || (c =? 13) ||
  (c =? 32) || (c =? 160) || (c =? 5760) ||
  ((8192 <=? c) && (c <=? 8202)) ||
  (c =? 8232) || (c =? 8233) || (c =? 8239) || (c =? 8287) ||
  (c =? 12288) || (c =? 65279).

Fixpoint trimStart (s : jsstring) : jsstring :=
  match s with
  | c :: s' => if isWhiteSpace c then trimStart s' else s
  | [] => []
  end.

Definition trimEnd (s : jsstring) : jsstring :=
  reverse (trimStart (reverse s)).

(** [s.trim()] *)
Definition trim (s : jsstring) : jsstring := trimEnd (trimStart s).

(** [s.startsWith(p)] *)
Fixpoint startsWith (p s : jsstring) : bool :=
  match p, s with
  | [], _ => true
  | a :: p', b :: s' => (a =? b) && startsWith p' s'
  | _ :: _, [] => false
  end.

(** [s.slice(n)] for a non-negative literal [n]. *)
Definition slice_from (n : nat) (s : jsstring) : jsstring := drop n s.

(** [s.includes(p)] *)
Fixpoint includes (p s : jsstring) : bool :=
  startsWith p s ||
  match s with
  | [] => false
  | _ :: s' => includes p s'
  end.

(** [s === t] on strings. *)
Definition str_eqb (s t : jsstring) : bool := bool_decide (s = t).

(** [s.split("\n")]: the segments between line feeds; never empty. *)
Fixpoint split_nl (s : jsstring) : list jsstring :=
  match s with
  | [] => [[]]
  | c :: s' =>
      if c =? 10 then [] :: split_nl s'
      else match split_nl s' with
           | l :: ls => (c :: l) :: ls
           | [] => [[c]]
           end
  end.

(** [arr.pop()] as the pair of the shortened array and the removed
    element ([undefined] on an empty array). *)
Definition pop {A} (l : list A) : list A * option A :=
  (removelast l, last l).

(** [n.toString()] for an integral number, as [Date.now()] returns. *)
Definition Z_toString (z : Z) : jsstring :=
  u (NilEmpty.string_of_int (Z.to_int z)).

(** A number literal of a JSON text denotes [mantissa * 10 ^ exp10];
    JavaScript stores the binary64 value nearest to it.  Only the
    zero test of that value is needed here. *)
Record JsNumber := mkNum { mantissa : Z; exp10 : Z }.

(** The binary64 nearest to [m * 10^e] is zero exactly when
    [|m * 10^e| <= 2^-1075] (half the least subnormal, ties to even). *)
Definition num_is_zero (n : JsNumber) : bool :=
  ((mantissa n =? 0) ||
   ((exp10 n <? 0) &&
    (Z.abs (mantissa n) * 2 ^ 1075 <=? 10 ^ (- exp10 n))))%Z.

Inductive JsValue :=
| JUndefined
| JNull
| JBool (b : bool)
| JNum (n : JsNumber)
| JStr (s : jsstring)
| JArr (elems : list JsValue)
| JObj (fields : list (jsstring * JsValue)).

(** ToBoolean. *)
Definition truthy (v : JsValue) : bool :=
  match v with
  | JUndefined | JNull => false
  | JBool b => b
  | JNum n => negb (num_is_zero n)
  | JStr s => match s with [] => false | _ => true end
  | JArr _ | JObj _ => true
  end.

(** Own property of a parsed object: first field with that key
    ([obj_set] keeps keys unique). *)
Fixpoint obj_get (k : jsstring) (fields : list (jsstring * JsValue))
  : JsValue :=
  match fields with
  | [] => JUndefined
  | (k', v) :: fs => if str_eqb k k' then v else obj_get k fs
  end.

(** [obj[k] = v] *)
Fixpoint obj_set (k : jsstring) (v : JsValue)
         (fields : list (jsstring * JsValue))
  : list (jsstring * JsValue) :=
  match fields with
  | [] => [(k, v)]
  | (k', v') :: fs =>
      if str_eqb k k' then (k, v) :: fs else (k', v') :: obj_set k v fs
  end.

(** [v.k] for the property names the sources read ([type], [error],
    [detail], none of which is defined on a prototype): [None] is the
    TypeError of reading a property of [null] or [undefined]. *)
Definition get_prop (v : JsValue) (k : jsstring) : option JsValue :=
  match v with
  | JUndefined | JNull => None
  | JObj fields => Some (obj_get k fields)
  | _ => Some JUndefined
  end.

(** [v.k] where [v] is known to be neither [null] nor [undefined]. *)
Definition prop (k : jsstring) (v : JsValue) : JsValue :=
  default JUndefined (get_prop v k).

(** [a || b] *)
Definition or_else (a b : JsValue) : JsValue :=
  if truthy a then a else b.

(** [v === "lit"] *)
Definition is_str (lit : jsstring) (v : JsValue) : bool :=
  match v with
  | JStr s => str_eqb s lit
  | _ => false
  end.

Fixpoint join_with (sep : jsstring) (parts : list jsstring) : jsstring :=
  match parts with
  | [] => []
  | [p] => p
  | p :: ps => p ++ sep ++ join_with sep ps
  end.

Section ToString.
Variable NumberToString : JsNumber -> jsstring.

(** ToString of a value whose conversion does not throw: a primitive,
    an object without an own [toString] entry, an array of such (see
    [ToString_c] for any value).  It is what [+] and a template literal
    apply to the token contents and counters, typed string and number
    by the sources. *)
Fixpoint ToString (v : JsValue) : jsstring :=
  match v with
  | JUndefined => u "undefined"
  | JNull => u "null"
  | JBool true => u "true"
  | JBool false => u "false"
  | JNum n => NumberToString n
  | JStr s => s
  | JArr elems =>
      join_with (u ",")
        (map (fun e => match e with
                       | JUndefined | JNull => []
                       | _ => ToString e
                       end) elems)
  | JObj _ => u "[object Object]"
  end.
End ToString.

(** What a [throw] carries: an instance of [Error] with its message, or
    any other value. *)
Inductive Exn :=
| Error (message : jsstring)
| Thrown (v : JsValue).

(** The TypeError of reading property [k] of [null] or [undefined]
    (message as V8 words it). *)
Definition TypeError_prop (v : JsValue) (k : jsstring) : Exn :=
  Error (u "Cannot read properties of " ++
         (match v with JUndefined => u "undefined" | _ => u "null" end) ++
         u " (reading '" ++ k ++ u "')").

(** Outcome of evaluating a call: a value, or a thrown exception
    (a rejected promise, for an awaited call). *)
Inductive Completion (A : Type) :=
| Normal (a : A)
| Throw (e : Exn).
Arguments Normal {A} a.
Arguments Throw {A} e.

(** [try { c } catch { h }] *)
Definition try_catch {A} (c : Completion A) (h : Exn -> Completion A)
  : Completion A :=
  match c with
  | Normal a => Normal a
  | Throw e => h e
  end.

(** An async generator run to its end: the values yielded, in order,
    and how it ended. *)
Definition Gen (A : Type) : Type := list A * Completion unit.

(** Whether the object has an own property [k]. *)
Definition has_own (k : jsstring) (fields : list (jsstring * JsValue))
  : bool :=
  existsb (fun kv => str_eqb k kv.1) fields.

(** The TypeError of converting to a primitive an object whose own
    [toString] is not callable (message as V8 words it). *)
Definition TypeError_convert : Exn :=
  Error (u "Cannot convert object to primitive value").

Section ToStringAny.
Variable NumberToString : JsNumber -> jsstring.

(** ToString of any value that [JSON.parse] returns.  An object is
    converted by its [toString]: an own [toString] entry of a parsed
    object is no function, and neither it nor [valueOf] then gives a
    primitive, so the conversion throws; without one it is
    [Object.prototype.toString].  An array is converted by [join],
    which converts its elements from left to right. *)
Fixpoint ToString_c (v : JsValue) : Completion jsstring :=
  match v with
  | JUndefined => Normal (u "undefined")
  | JNull => Normal (u "null")
  | JBool true => Normal (u "true")
  | JBool false => Normal (u "false")
  | JNum n => Normal (NumberToString n)
  | JStr s => Normal s
  | JArr elems =>
      match
        (fix join_elems (l : list JsValue) : Completion (list jsstring) :=
           match l with
           | [] => Normal []
           | e :: rest =>
               match
                 match e with
                 | JUndefined | JNull => Normal []
                 | _ => ToString_c e
                 end
               with
               | Throw t => Throw t
               | Normal part =>
                   match join_elems rest with
                   | Throw t => Throw t
                   | Normal parts => Normal (part :: parts)
                   end
               end
           end) elems
      with
      | Throw t => Throw t
      | Normal parts => Normal (join_with (u ",") parts)
      end
  | JObj fields =>
      if has_own (u "toString") fields then Throw TypeError_convert
      else Normal (u "[object Object]")
  end.

End ToStringAny.

(** JSON text written with ['] for the double quote. *)
Definition json_text (s : string) : jsstring :=
  map (fun c => if c =? 39 then 34 else c) (u s).

End Js.

(** ** Reference implementation of [JSON.parse]

    The ECMA-404 grammar over code units.  [None] stands for the
    SyntaxError that [JSON.parse] throws. *)

Module Json.
Import Js.

Definition is_ws (c : N) : bool :=
  (c =? 32) || (c =? 9) || (c =? 10) || (c =? 13).

Fixpoint skip_ws (s : jsstring) : jsstring :=
  match s with
  | c :: s' => if is_ws c then skip_ws s' else s
  | [] => []
  end.

Definition is_digit (c : N) : bool := (48 <=? c) && (c <=? 57).

Definition hex_val (c : N) : option N :=
  if (48 <=? c) && (c <=? 57) then Some (c - 48)
  else if (65 <=? c) && (c <=? 70) then Some (c - 55)
  else if (97 <=? c) && (c <=? 102) then Some (c - 87)
  else None.

(** State of the scanner inside a string literal. *)
Inductive StrState :=
| InChars
| InEscape
| InUnicode (left : nat) (acc : N).

(** The characters of a string literal after its opening quote; the
    result is the string denoted and the text after the closing quote. *)
Fixpoint parse_chars (st : StrState) (acc : jsstring) (s : jsstring)
  : option (jsstring * jsstring) :=
  match s with
  | [] => None
  | c :: s' =>
      match st with
      | InChars =>
          if c =? 34 then Some (reverse acc, s')
          else if c =? 92 then parse_chars InEscape acc s'
          else if c <? 32 then None
          else parse_chars InChars (c :: acc) s'
      | InEscape =>
          if c =? 34 then parse_chars InChars (34 :: acc) s'
          else if c =? 92 then parse_chars InChars (92 :: acc) s'
          else if c =? 47 then parse_chars InChars (47 :: acc) s'
          else if c =? 98 then parse_chars InChars (8 :: acc) s'
          else if c =? 102 then parse_chars InChars (12 :: acc) s'
          else if c =? 110 then parse_chars InChars (10 :: acc) s'
          else if c =? 114 then parse_chars InChars (13 :: acc) s'
          else if c =? 116 then parse_chars InChars (9 :: acc) s'
          else if c =? 117 then parse_chars (InUnicode 4 0) acc s'
          else None
      | InUnicode n v =>
          match hex_val c with
          | None => None
          | Some d =>
              let v' := v * 16 + d in
              match n with
              | 0%nat | 1%nat => parse_chars InChars (v' :: acc) s'
              | S n' => parse_chars (InUnicode n' v') acc s'
              end
          end
      end
  end.

(** Longest prefix of digits, with the rest. *)
Fixpoint span_digits (s : jsstring) : jsstring * jsstring :=
  match s with
  | c :: s' =>
      if is_digit c then
        let '(ds, r) := span_digits s' in (c :: ds, r)
      else ([], s)
  | [] => ([], [])
  end.

Definition digits_val (ds : jsstring) : Z :=
  fold_left (fun acc c => (acc * 10 + Z.of_N (c - 48))%Z) ds 0%Z.

(** [-? int frac? exp?] *)
Definition parse_number (s : jsstring) : option (JsNumber * jsstring) :=
  let '(neg, s1) :=
    match s with
    | 45 :: r => (true, r)
    | _ => (false, s)
    end in
  let '(ip, s2) := span_digits s1 in
  match ip with
  | [] => None
  | d :: ds =>
      if (d =? 48) && negb (bool_decide (ds = [])) then None
      else
        let '(fp, s3) :=
          match s2 with
          | 46 :: r => let '(f, r') := span_digits r in (Some f, r')
          | _ => (None, s2)
          end in
        if bool_decide (fp = Some []) then None
        else
          let f := default [] fp in
          let '(ex, s4) :=
            match s3 with
            | c :: r =>
                if (c =? 101) || (c =? 69) then
                  let '(eneg, r1) :=
                    match r with
                    | 45 :: r' => (true, r')
                    | 43 :: r' => (false, r')
                    | _ => (false, r)
                    end in
                  let '(e, r2) := span_digits r1 in
                  (Some (eneg, e), r2)
                else (None, s3)
            | [] => (None, s3)
            end in
          match ex with
          | Some (_, []) => None
          | _ =>
              let e :=
                match ex with
                | Some (true, e) => (- digits_val e)%Z
                | Some (false, e) => digits_val e
                | None => 0%Z
                end in
              let m := digits_val (ip ++ f) in
              Some (mkNum (if neg then (- m)%Z else m)
                          (e - Z.of_nat (length f))%Z, s4)
          end
  end.

(** A value, the elements of an array after its bracket, and the
    members of an object after its brace.  Every call consumes fuel;
    [parse] supplies enough for the whole text. *)
Fixpoint parse_value (fuel : nat) (s : jsstring)
  : option (JsValue * jsstring) :=
  match fuel with
  | O => None
  | S fuel' =>
      match skip_ws s with
      | 123 :: r =>
          match skip_ws r with
          | 125 :: r' => Some (JObj [], r')
          | r' => parse_members fuel' [] r'
          end
      | 91 :: r =>
          match skip_ws r with
          | 93 :: r' => Some (JArr [], r')
          | r' => parse_elements fuel' [] r'
          end
      | 34 :: r =>
          match parse_chars InChars [] r with
          | Some (str, r') => Some (JStr str, r')
          | None => None
          end
      | 116 :: 114 :: 117 :: 101 :: r => Some (JBool true, r)
      | 102 :: 97 :: 108 :: 115 :: 101 :: r => Some (JBool false, r)
      | 110 :: 117 :: 108 :: 108 :: r => Some (JNull, r)
      | s' =>
          match parse_number s' with
          | Some (n, r) => Some (JNum n, r)
          | None => None
          end
      end
  end
with parse_elements (fuel : nat) (acc : list JsValue) (s : jsstring)
  : option (JsValue * jsstring) :=
  match fuel with
  | O => None
  | S fuel' =>
      match parse_value fuel' s with
      | None => None
      | Some (v, r) =>
          match skip_ws r with
          | 44 :: r' => parse_elements fuel' (v :: acc) r'
          | 93 :: r' => Some (JArr (reverse (v :: acc)), r')
          | _ => None
          end
      end
  end
with parse_members (fuel : nat) (acc : list (jsstring * JsValue))
                   (s : jsstring)
  : option (JsValue * jsstring) :=
  match fuel with
  | O => None
  | S fuel' =>
      match skip_ws s with
      | 34 :: r =>
          match parse_chars InChars [] r with
          | None => None
          | Some (k, r1) =>
              match skip_ws r1 with
              | 58 :: r2 =>
                  match parse_value fuel' r2 with
                  | None => None
                  | Some (v, r3) =>
                      match skip_ws r3 with
                      | 44 :: r4 => parse_members fuel' (obj_set k v acc) r4
                      | 125 :: r4 => Some (JObj (obj_set k v acc), r4)
                      | _ => None
                      end
                  end
              | _ => None
              end
          end
      | _ => None
      end
  end.

(** [JSON.parse(text)] *)
Definition parse (text : jsstring) : option JsValue :=
  match parse_value (2 * length text + 2) text with
  | Some (v, r) =>
      match skip_ws r with
      | [] => Some v
      | _ => None
      end
  | None => None
  end.

End Json.


(** [JSON.parse] of the reference implementation, as a completion. *)
Definition JSON_parse_ref (text : Js.jsstring) : Js.Completion Js.JsValue :=
  match Json.parse text with
  | Some v => Js.Normal v
  | None => Js.Throw (Js.Error (Js.u "Unexpected token in JSON"))
  end.

(** ** frontend/src/api/client.ts *)

Module Client.
Import Js.

(** The part of a [fetch] response the sources read: the status and
    the body, which is [None] when [res.body] is null (a response
    without a body, such as a 204) and otherwise the decoded text of
    the chunks the body reader delivers with the error with which the
    body stream fails after them, if it does. *)
Record Response := {
  status : Z;
  body : option (list jsstring * option Exn)
}.

(** The chunks of the body; none for a response without a body. *)
Definition body_chunks (res : Response) : list jsstring :=
  match body res with
  | Some (chunks, _) => chunks
  | None => []
  end.

(** The error with which reading the body fails, if it does. *)
Definition body_failure (res : Response) : option Exn :=
  match body res with
  | Some (_, failure) => failure
  | None => None
  end.

(** The TypeError of [res.body!.getReader()] when [res.body] is
    null. *)
Definition TypeError_getReader : Exn :=
  TypeError_prop JNull (u "getReader").

(** [res.ok] *)
Definition ok (res : Response) : bool :=
  ((200 <=? status res) && (status res <=? 299))%Z.

Section WithBuiltins.
Variable JSON_parse : jsstring -> Completion JsValue.
Variable NumberToString : JsNumber -> jsstring.

(** [await res.json()] *)
Definition json (res : Response) : Completion JsValue :=
  match body_failure res with
  | Some e => Throw e
  | None => JSON_parse (concat (body_chunks res))
  end.

(** The message computed for a non-2xx response, shared by [apiFetch]
    and [apiStream]:
      let errorMessage = `HTTP ${res.status}`;
      try { const errorData = await res.json();
            errorMessage = errorData.error || errorData.detail || errorMessage;
      } catch { }                                                        *)
Definition errorMessage (res : Response) : JsValue :=
  let errorMessage := JStr (u "HTTP " ++ Z_toString (status res)) in
  match json res with
  | Throw _ => errorMessage
  | Normal errorData =>
      match get_prop errorData (u "error") with
      | None => errorMessage
      | Some e =>
          if truthy e then e
          else match get_prop errorData (u "detail") with
               | None => errorMessage
               | Some d => or_else d errorMessage
               end
      end
  end.

(** What [throw new Error(v)] throws: the Error whose message is the
    string form of [v], or the TypeError of converting [v] when it
    cannot be converted. *)
Definition new_Error (v : JsValue) : Exn :=
  match ToString_c NumberToString v with
  | Normal message => Error message
  | Throw e => e
  end.

(** [apiFetch], given what [fetch] resolved or rejected with. *)
Definition apiFetch (fetched : Completion Response) : Completion JsValue :=
  match fetched with
  | Throw e => Throw e
  | Normal res =>
      if negb (ok res) then Throw (new_Error (errorMessage res))
      else json res
  end.

(** [parseSseLine] *)
Definition parseSseLine (line : jsstring) : Completion JsValue :=
  if negb (startsWith (u "data: ") line) then Normal JNull
  else
    let data := trim (slice_from 6 line) in
    if str_eqb data (u "[DONE]") then
      Normal (JObj [(u "type", JStr (u "done"))])
    else
      try_catch (JSON_parse data) (fun _ => Normal JNull).

(** [event.type === "done"] *)
Definition type_is (lit : jsstring) (event : JsValue) : bool :=
  is_str lit (prop (u "type") event).

(** The [for (const line of lines)] loop of [apiStream]: the events
    yielded, and [Some c] when the generator ended inside the loop. *)
Fixpoint apiStream_lines (lines : list jsstring)
  : list JsValue * option (Completion unit) :=
  match lines with
  | [] => ([], None)
  | line :: rest =>
      match parseSseLine (trim line) with
      | Throw e => ([], Some (Throw e))
      | Normal event =>
          if truthy event then
            if type_is (u "done") event then ([event], Some (Normal tt))
            else
              let '(evs, r) := apiStream_lines rest in (event :: evs, r)
          else apiStream_lines rest
      end
  end.

(** The [while (true)] loop of [apiStream] over the chunks still to be
    read, with the current [buffer]. *)
Fixpoint apiStream_read (chunks : list jsstring) (failure : option Exn)
         (buffer : jsstring) : Gen JsValue :=
  match chunks with
  | [] =>
      match failure with
      | Some e => ([], Throw e)
      | None => ([], Normal tt)
      end
  | value :: chunks' =>
      let buffer := buffer ++ value in
      let '(lines, popped) := pop (split_nl buffer) in
      let buffer := default [] popped in
      let '(evs, r) := apiStream_lines lines in
      match r with
      | Some c => (evs, c)
      | None =>
          let '(evs', c) := apiStream_read chunks' failure buffer in
          (evs ++ evs', c)
      end
  end.

(** [apiStream] *)
Definition apiStream (fetched : Completion Response) : Gen JsValue :=
  match fetched with
  | Throw e => ([], Throw e)
  | Normal res =>
      if negb (ok res) then ([], Throw (new_Error (errorMessage res)))
      else
        match body res with
        | None => ([], Throw TypeError_getReader)
        | Some (chunks, failure) => apiStream_read chunks failure []
        end
  end.

End WithBuiltins.
End Client.

(** ** frontend/src/api/data.ts *)

Module Data.
Import Js Client.

Section WithBuiltins.
Variable JSON_parse : jsstring -> Completion JsValue.

(** The [for (const line of lines)] loop of [importJson]. *)
Fixpoint importJson_lines (lines : list jsstring)
  : list JsValue * option (Completion unit) :=
  match lines with
  | [] => ([], None)
  | line :: rest =>
      let trimmed := trim line in
      if negb (startsWith (u "data: ") trimmed) then importJson_lines rest
      else
        let data := slice_from 6 trimmed in
        if str_eqb data (u "[DONE]") then ([], Some (Normal tt))
        else
          match JSON_parse data with
          | Normal event =>
              let '(evs, r) := importJson_lines rest in (event :: evs, r)
          | Throw _ => importJson_lines rest
          end
  end.

(** The [while (true)] loop of [importJson]. *)
Fixpoint importJson_read (chunks : list jsstring) (failure : option Exn)
         (buffer : jsstring) : Gen JsValue :=
  match chunks with
  | [] =>
      match failure with
      | Some e => ([], Throw e)
      | None => ([], Normal tt)
      end
  | value :: chunks' =>
      let buffer := buffer ++ value in
      let '(lines, popped) := pop (split_nl buffer) in
      let buffer := default [] popped in
      let '(evs, r) := importJson_lines lines in
      match r with
      | Some c => (evs, c)
      | None =>
          let '(evs', c) := importJson_read chunks' failure buffer in
          (evs ++ evs', c)
      end
  end.

(** [importJson], given what [fetch("/api/import", ...)] resolved or
    rejected with. *)
Definition importJson (fetched : Completion Response) : Gen JsValue :=
  match fetched with
  | Throw e => ([], Throw e)
  | Normal res =>
      if negb (ok res) then
        ([], Throw (Error (u "HTTP " ++ Z_toString (status res))))
      else
        match body res with
        | None => ([], Throw TypeError_getReader)
        | Some (chunks, failure) => importJson_read chunks failure []
        end
  end.

End WithBuiltins.
End Data.

(** ** frontend/src/api/chat.ts *)

Module Chat.
Import Js Client.

(** The [for await (const event of ...)] loop of [streamChat] over the
    events of the generator it consumes. *)
Fixpoint streamChat_over (events : list JsValue) (ending : Completion unit)
  : Gen JsValue :=
  match events with
  | [] => ([], ending)
  | event :: rest =>
      match get_prop event (u "type") with
      | None => ([], Throw (TypeError_prop event (u "type")))
      | Some t =>
          if is_str (u "token") t || is_str (u "citations") t
             || is_str (u "debug") t
          then let '(evs, c) := streamChat_over rest ending in
               (event :: evs, c)
          else streamChat_over rest ending
      end
  end.

Section WithBuiltins.
Variable JSON_parse : jsstring -> Completion JsValue.
Variable NumberToString : JsNumber -> jsstring.

(** [streamChat], given what the [fetch] of [/chat] resolved or
    rejected with. *)
Definition streamChat (fetched : Completion Response) : Gen JsValue :=
  let '(events, ending) := apiStream JSON_parse NumberToString fetched in
  streamChat_over events ending.

End WithBuiltins.
End Chat.

(** ** The chat tab *)

Module ChatTab.
Import Js.

Inductive Role := user | assistant.

(** [interface Message]; [citations] is [JUndefined] while unset and
    otherwise holds the value received, unchecked. *)
Record Message := {
  id : jsstring;
  role : Role;
  content : jsstring;
  citations : JsValue;
  timestamp : Z
}.

(** [type MessageAction]; the token and the citations are the values
    taken from a received event. *)
Inductive MessageAction :=
| ADD_MESSAGE (message : Message)
| APPEND_TOKEN (messageId : jsstring) (token : JsValue)
| SET_CITATIONS (messageId : jsstring) (citations : JsValue)
| SET_MESSAGES (messages : list Message).

(** [interface ChatMessage] of the chat API. *)
Inductive ChatRole := role_user | role_assistant | role_system.
Record ChatMessage := { cm_role : ChatRole; cm_content : jsstring }.

(** [interface DebugInfo] *)
Record DebugInfo := {
  di_messages : JsValue;
  userName : JsValue;
  currentDate : JsValue;
  systemPrompt : jsstring
}.

Section WithBuiltins.
Variable NumberToString : JsNumber -> jsstring.

(** [{ ...msg, content: msg.content + token }] *)
Definition append_content (msg : Message) (token : JsValue) : Message :=
  {| id := id msg; role := role msg;
     content := content msg ++ ToString NumberToString token;
     citations := citations msg; timestamp := timestamp msg |}.

(** [{ ...msg, citations }] *)
Definition with_citations (msg : Message) (c : JsValue) : Message :=
  {| id := id msg; role := role msg; content := content msg;
     citations := c; timestamp := timestamp msg |}.

(** [messagesReducer] *)
Definition messagesReducer (state : list Message) (action : MessageAction)
  : list Message :=
  match action with
  | ADD_MESSAGE message => state ++ [message]
  | APPEND_TOKEN messageId token =>
      map (fun msg =>
             if str_eqb (id msg) messageId then append_content msg token
             else msg) state
  | SET_CITATIONS messageId c =>
      map (fun msg =>
             if str_eqb (id msg) messageId then with_citations msg c
             else msg) state
  | SET_MESSAGES messages => messages
  end.

(** The state of the component that [handleSend] and [handleStop] read
    and write, with the [AbortController] objects allocated so far
    ([signals !! c] is [controller.signal.aborted] of controller [c]). *)
Record State := {
  messages : list Message;
  input : jsstring;
  isLoading : bool;
  abortController : option nat;
  error : option jsstring;
  debugInfo : option DebugInfo;
  signals : list bool
}.

Definition dispatch (action : MessageAction) (st : State) : State :=
  {| messages := messagesReducer (messages st) action;
     input := input st; isLoading := isLoading st;
     abortController := abortController st; error := error st;
     debugInfo := debugInfo st; signals := signals st |}.

Definition setInput (v : jsstring) (st : State) : State :=
  {| messages := messages st; input := v; isLoading := isLoading st;
     abortController := abortController st; error := error st;
     debugInfo := debugInfo st; signals := signals st |}.

Definition setIsLoading (v : bool) (st : State) : State :=
  {| messages := messages st; input := input st; isLoading := v;
     abortController := abortController st; error := error st;
     debugInfo := debugInfo st; signals := signals st |}.

Definition setAbortController (v : option nat) (st : State) : State :=
  {| messages := messages st; input := input st; isLoading := isLoading st;
     abortController := v; error := error st;
     debugInfo := debugInfo st; signals := signals st |}.

Definition setError (v : option jsstring) (st : State) : State :=
  {| messages := messages st; input := input st; isLoading := isLoading st;
     abortController := abortController st; error := v;
     debugInfo := debugInfo st; signals := signals st |}.

Definition setDebugInfo (v : option DebugInfo) (st : State) : State :=
  {| messages := messages st; input := input st; isLoading := isLoading st;
     abortController := abortController st; error := error st;
     debugInfo := v; signals := signals st |}.

(** [new AbortController()] *)
Definition new_AbortController (st : State) : nat * State :=
  (length (signals st),
   {| messages := messages st; input := input st; isLoading := isLoading st;
      abortController := abortController st; error := error st;
      debugInfo := debugInfo st; signals := signals st ++ [false] |}).

(** [controller.abort()] *)
Definition abort (c : nat) (st : State) : State :=
  {| messages := messages st; input := input st; isLoading := isLoading st;
     abortController := abortController st; error := error st;
     debugInfo := debugInfo st; signals := <[c := true]> (signals st) |}.

(** [controller.signal.aborted] *)
Definition aborted (c : nat) (st : State) : bool :=
  default false (signals st !! c).

(** The four clock readings of [handleSend]: [Date.now()] and
    [new Date()] for the user message, then for the placeholder. *)
Record Clock := {
  now_user : Z; date_user : Z;
  now_assistant : Z; date_assistant : Z
}.

(** What the pending call of [handleSend] holds in local variables. *)
Record Pending := {
  assistantId : jsstring;
  controller : nat;
  apiMessages : list ChatMessage
}.

Definition chat_role (r : Role) : ChatRole :=
  match r with
  | user => role_user
  | assistant => role_assistant
  end.

(** [handleSend] up to the call of [streamChat]: [None] when the guard
    returns at once. *)
Definition handleSend_start (clk : Clock) (st : State)
  : option (State * Pending) :=
  if negb (truthy (JStr (trim (input st)))) || isLoading st then None
  else
    let userMsg :=
      {| id := Z_toString (now_user clk); role := user;
         content := input st; citations := JUndefined;
         timestamp := date_user clk |} in
    let st1 := dispatch (ADD_MESSAGE userMsg) st in
    let st2 := setInput [] st1 in
    let st3 := setIsLoading true st2 in
    let st4 := setError None st3 in
    let st5 := setDebugInfo None st4 in
    let assistantId := Z_toString (now_assistant clk + 1) in
    let assistantMsg :=
      {| id := assistantId; role := assistant; content := [];
         citations := JUndefined; timestamp := date_assistant clk |} in
    let st6 := dispatch (ADD_MESSAGE assistantMsg) st5 in
    let '(controller, st7) := new_AbortController st6 in
    let st8 := setAbortController (Some controller) st7 in
    let apiMessages :=
      map (fun m => {| cm_role := chat_role (role m);
                       cm_content := content m |}) (messages st)
      ++ [{| cm_role := role_user; cm_content := input st |}] in
    Some (st8, {| assistantId := assistantId; controller := controller;
                  apiMessages := apiMessages |}).

(** The body of the [for await] loop of [handleSend]. *)
Definition handleSend_event (p : Pending) (event : JsValue) (st : State)
  : Completion State :=
  match get_prop event (u "type") with
  | None => Throw (TypeError_prop event (u "type"))
  | Some t =>
      if is_str (u "token") t then
        Normal (dispatch (APPEND_TOKEN (assistantId p)
                            (prop (u "content") event)) st)
      else if is_str (u "debug") t then
        Normal (setDebugInfo
                  (Some {| di_messages := prop (u "messages") event;
                           userName := prop (u "user_name") event;
                           currentDate := prop (u "current_date") event;
                           systemPrompt := [] |}) st)
      else if is_str (u "citations") t then
        Normal (dispatch (SET_CITATIONS (assistantId p)
                            (prop (u "citations") event)) st)
      else Normal st
  end.

(** [err instanceof Error ? err.message : "Failed to get response"] *)
Definition errorMessage (err : Exn) : jsstring :=
  match err with
  | Error message => message
  | Thrown _ => u "Failed to get response"
  end.

(** The [catch (err)] block of [handleSend]. *)
Definition handleSend_catch (p : Pending) (err : Exn) (st : State)
  : State :=
  if aborted (controller p) st then st
  else
    let errorMessage := errorMessage err in
    let st1 := setError (Some errorMessage) st in
    dispatch (APPEND_TOKEN (assistantId p)
                (JStr (u "[Error: " ++ errorMessage ++ u "]"))) st1.

(** The [finally] block of [handleSend]. *)
Definition handleSend_finally (st : State) : State :=
  setAbortController None (setIsLoading false st).

(** [handleStop] *)
Definition handleStop (st : State) : State :=
  match abortController st with
  | Some c => setAbortController None (setIsLoading false (abort c st))
  | None => st
  end.

(** What happens while [handleSend] awaits the stream: an event
    arrives, or the user presses the stop button. *)
Inductive Step :=
| Event (event : JsValue)
| Stop.

(** The [for await] loop of [handleSend] over the steps taken until the
    stream ends, with the exception the loop body raised, if any. *)
Fixpoint handleSend_loop (p : Pending) (steps : list Step) (st : State)
  : State * option Exn :=
  match steps with
  | [] => (st, None)
  | Stop :: rest => handleSend_loop p rest (handleStop st)
  | Event event :: rest =>
      match handleSend_event p event st with
      | Normal st' => handleSend_loop p rest st'
      | Throw e => (st, Some e)
      end
  end.

(** [handleSend] run to its end, over the steps taken while it awaits
    and the way the stream ends. *)
Definition handleSend (clk : Clock) (steps : list Step)
           (ending : Completion unit) (st : State) : State :=
  match handleSend_start clk st with
  | None => st
  | Some (st1, p) =>
      let '(st2, raised) := handleSend_loop p steps st1 in
      let st3 :=
        match raised, ending with
        | Some e, _ => handleSend_catch p e st2
        | None, Throw e => handleSend_catch p e st2
        | None, Normal _ => st2
        end in
      handleSend_finally st3
  end.

End WithBuiltins.
End ChatTab.

(** ** The settings tab *)

Module SettingsTab.
Import Js.

(** [[...].includes(key)] of [handleSave] *)
Definition isSensitiveField (key : jsstring) : bool :=
  bool_decide (key ∈ [u "telegram_api_hash"; u "openrouter_api_key";
                      u "chat_api_key"; u "api_key"]).

(** The body of the [for (const [key, value] of Object.entries(...))]
    loop of [handleSave], on the [updateData] built so far. *)
Definition handleSave_entry (key : jsstring) (value : JsValue)
           (updateData : gmap jsstring JsValue) : gmap jsstring JsValue :=
  match value with
  | JUndefined => updateData
  | _ =>
      if isSensitiveField key then
        if negb (is_str (u "****") value) && negb (is_str [] value)
        then <[key := value]> updateData
        else updateData
      else <[key := value]> updateData
  end.

(** [handleSave]: the argument with which [saveSettings] is called, or
    [None] when [settings] is still [null]. *)
Definition handleSave (settings : option (gmap jsstring JsValue))
           (localSettings : gmap jsstring JsValue)
  : option (gmap jsstring JsValue) :=
  match settings with
  | None => None
  | Some _ => Some (map_fold handleSave_entry ∅ localSettings)
  end.

End SettingsTab.

(** ** The data tab *)

Module DataTab.
Import Js.

(** [interface Chat] of the chats API. *)
Record Chat := {
  chat_id : jsstring;
  chat_name : jsstring;
  chat_type : jsstring;
  message_count : Z;
  last_message_at : option jsstring;
  created_at : option jsstring;
  included : bool
}.

Inductive ChatsFilter := all | only_included | only_excluded.

(** [chatsFilter === "..."] *)
Definition filter_is (a b : ChatsFilter) : bool :=
  match a, b with
  | all, all | only_included, only_included
  | only_excluded, only_excluded => true
  | _, _ => false
  end.

Section WithBuiltins.
Variable toLowerCase : jsstring -> jsstring.

(** The predicate of [chats.filter(...)] in [filteredChats]. *)
Definition chat_matches (chatsFilter : ChatsFilter) (searchQuery : jsstring)
           (chat : Chat) : bool :=
  let isSearchActive := (0 <? length (trim searchQuery))%nat in
  let matchesFilter :=
    (filter_is chatsFilter all &&
       (included chat || (0 <? message_count chat)%Z || isSearchActive))
    || (filter_is chatsFilter only_included && included chat)
    || (filter_is chatsFilter only_excluded && negb (included chat)) in
  let matchesSearch :=
    includes (toLowerCase searchQuery) (toLowerCase (chat_name chat))
    || includes searchQuery (chat_id chat) in
  matchesFilter && matchesSearch.

(** [filteredChats] *)
Definition filteredChats (chats : list Chat) (chatsFilter : ChatsFilter)
           (searchQuery : jsstring) : list Chat :=
  List.filter (chat_matches chatsFilter searchQuery) chats.

End WithBuiltins.

(** Lower-casing of the ASCII letters, to run [filteredChats] on
    examples. *)
Definition ascii_toLowerCase (s : jsstring) : jsstring :=
  map (fun c => if (65 <=? c) && (c <=? 90) then c + 32 else c) s.

End DataTab.


(** ** Notions used to state the properties *)

Module Notions.
Import Js Client Chat ChatTab SettingsTab.

(** The complete lines of the text received: all segments of the split
    but the unfinished last one. *)
Definition sse_lines (chunks : list Js.jsstring) : list Js.jsstring :=
  removelast (Js.split_nl (concat chunks)).

(** Whether a parsed value has a string form: it is no object with an
    own [toString] entry, and no array that holds, at any depth, such
    an object. *)
Fixpoint convertible (v : JsValue) : bool :=
  match v with
  | JArr elems => forallb convertible elems
  | JObj fields => negb (has_own (u "toString") fields)
  | _ => true
  end.

(** How a generator over a body ends when the lines did not end it. *)
Definition body_end (failure : option Js.Exn) : Js.Completion unit :=
  match failure with
  | Some e => Js.Throw e
  | None => Js.Normal tt
  end.

(** The test of [streamChat] on an event that is not null. *)
Definition forwarded (event : JsValue) : bool :=
  type_is (u "token") event || type_is (u "citations") event
  || type_is (u "debug") event.

(** The shape shared by the APPEND_TOKEN and SET_CITATIONS cases:
    [state.map(msg => msg.id === messageId ? f(msg) : msg)]. *)
Definition update_where (messageId : jsstring) (f : Message -> Message)
           (state : list Message) : list Message :=
  map (fun msg => if str_eqb (id msg) messageId then f msg else msg) state.

(** Whether the loop body of [handleSave] copies an entry. *)
Definition kept (key : jsstring) (value : JsValue) : bool :=
  match value with
  | JUndefined => false
  | _ =>
      if isSensitiveField key
      then negb (is_str (u "****") value) && negb (is_str [] value)
      else true
  end.

Section WithBuiltins.
Variable NumberToString : JsNumber -> jsstring.

(** The text that the token events among the steps append. *)
Fixpoint tokens_text (steps : list Step) : jsstring :=
  match steps with
  | [] => []
  | Stop :: rest => tokens_text rest
  | Event event :: rest =>
      (if is_str (u "token") (prop (u "type") event)
       then ToString NumberToString (prop (u "content") event) else [])
      ++ tokens_text rest
  end.

End WithBuiltins.

(** The placeholder of the pending call: the last message of the list,
    carrying the id of the call. *)
Definition placeholder (p : Pending) (st : State) (m : Message) : Prop :=
  last (messages st) = Some m /\ id m = assistantId p.

(** The controller of the pending call is either still installed and
    not aborted, or removed and aborted. *)
Definition controller_inv (p : Pending) (st : State) : Prop :=
  (controller p < length (signals st))%nat /\
  ((abortController st = Some (controller p) /\
    aborted (controller p) st = false) \/
   (abortController st = None /\ aborted (controller p) st = true)).

End Notions.

(** ** Inputs on which the definitions are run *)

Module Examples.
Import Js Client ChatTab DataTab.

(** Number::toString on the integers, enough to run the definitions on
    examples that involve no fraction. *)
Definition NumberToString_int (n : Js.JsNumber) : Js.jsstring :=
  Js.Z_toString (Js.mantissa n * 10 ^ Js.exp10 n).

Definition response_of (st : Z) (text : jsstring) : Response :=
  {| status := st; body := Some ([text], None) |}.

Definition ok_response (chunks : list jsstring) : Response :=
  {| status := 200; body := Some (chunks, None) |}.

(** A line of text with its terminator, as sse-starlette frames events
    (CR LF CR LF) and as a bare line feed. *)
Definition crlf2 (s : jsstring) : jsstring := s ++ [13; 10; 13; 10].

Definition lf (s : jsstring) : jsstring := s ++ [10].

Definition done_event : JsValue := JObj [(u "type", JStr (u "done"))].

Definition done_counts : JsValue :=
  JObj [(u "type", JStr (u "done")); (u "messages_added", JNum (mkNum 3 0))].

Definition reasoning_event : JsValue :=
  JObj [(u "type", JStr (u "reasoning")); (u "content", JStr (u "hm"))].

Definition token_event : JsValue :=
  JObj [(u "type", JStr (u "token")); (u "content", JStr (u "Hi"))].

(** An import stream as the back end frames it: the done event with
    its counters, a second one, then the end marker. *)
Definition import_body : list jsstring :=
  [crlf2 (json_text "data: {'type':'done','messages_added':3}");
   crlf2 (json_text "data: {'type':'done','messages_added':3}");
   crlf2 (u "data: [DONE]")].

(** A body cut into chunks in the middle of a line, with an event after
    the end marker. *)
Definition marked_body : list jsstring :=
  [json_text "data: {'type':'done','messa";
   crlf2 (json_text "ges_added':3}") ++ u "data: [DO";
   crlf2 (u "NE]") ++ lf (json_text "data: {'type':'late'}")].

Definition chat_body : list jsstring :=
  [crlf2 (json_text "data: {'type':'reasoning','content':'hm'}");
   crlf2 (json_text "data: {'type':'token','content':'Hi'}");
   crlf2 (u "data: [DONE]")].

Definition msg_a : Message :=
  {| id := u "1"; role := user; content := u "hello";
     citations := JUndefined; timestamp := 0 |}.

Definition msg_b : Message :=
  {| id := u "1"; role := assistant; content := [];
     citations := JUndefined; timestamp := 1 |}.

Definition msg_c : Message :=
  {| id := u "2"; role := assistant; content := [];
     citations := JUndefined; timestamp := 1 |}.

Definition st_ex : State :=
  {| messages := []; input := u "hi"; isLoading := false;
     abortController := None; error := None; debugInfo := None;
     signals := [] |}.

Definition clk_ex : Clock :=
  {| now_user := 1000; date_user := 1000;
     now_assistant := 1000; date_assistant := 1001 |}.

Definition user_ex : Message :=
  {| id := u "1000"; role := user; content := u "hi";
     citations := JUndefined; timestamp := 1000 |}.

Definition assistant_ex (text : jsstring) : Message :=
  {| id := u "1001"; role := assistant; content := text;
     citations := JUndefined; timestamp := 1001 |}.

Definition localSettings_ex : gmap jsstring JsValue :=
  <[u "api_key" := JStr (u "****")]>
    (<[u "chat_api_key" := JStr (u "sk-1")]>
       (<[u "top_k" := JNum (mkNum 5 0)]>
          (<[u "noise_filter_keywords" := JUndefined]> ∅))).

Definition chat_ex : Chat :=
  {| chat_id := u "42"; chat_name := u "Alice"; chat_type := u "private";
     message_count := 0; last_message_at := None; created_at := None;
     included := false |}.

End Examples.

(** ** frontend/src/api/data.ts and the chats API: the relaying generators *)

Module Relays.
Import Js Client.

(** [for await (const event of ...) { yield event; }] over the events
    of the generator consumed. *)
Fixpoint relay (events : list JsValue) (ending : Completion unit)
  : Gen JsValue :=
  match events with
  | [] => ([], ending)
  | event :: rest =>
      let '(evs, c) := relay rest ending in (event :: evs, c)
  end.

Section WithBuiltins.
Variable JSON_parse : jsstring -> Completion JsValue.
Variable NumberToString : JsNumber -> jsstring.

(** [syncTelegram], given what the [fetch] of [/sync] resolved or
    rejected with; likewise the four generators below for their
    endpoints. *)
Definition syncTelegram (fetched : Completion Response) : Gen JsValue :=
  let '(events, ending) := apiStream JSON_parse NumberToString fetched in
  relay events ending.

Definition importJsonPath (fetched : Completion Response) : Gen JsValue :=
  let '(events, ending) := apiStream JSON_parse NumberToString fetched in
  relay events ending.

Definition reindexDatabase (fetched : Completion Response) : Gen JsValue :=
  let '(events, ending) := apiStream JSON_parse NumberToString fetched in
  relay events ending.

Definition processPendingData (fetched : Completion Response)
  : Gen JsValue :=
  let '(events, ending) := apiStream JSON_parse NumberToString fetched in
  relay events ending.

Definition syncChats (fetched : Completion Response) : Gen JsValue :=
  let '(events, ending) := apiStream JSON_parse NumberToString fetched in
  relay events ending.

End WithBuiltins.
End Relays.

(** ** Line framing *)

Module Framing.
Import Js.

(** The text with every line feed preceded by a carriage return. *)
Fixpoint to_crlf (s : jsstring) : jsstring :=
  match s with
  | [] => []
  | c :: s' => if c =? 10 then 13 :: 10 :: to_crlf s' else c :: to_crlf s'
  end.

(** All segments of a split but the last, with a carriage return
    appended. *)
Fixpoint with_cr (segments : list jsstring) : list jsstring :=
  match segments with
  | [] => []
  | [l] => [l]
  | l :: ls => (l ++ [13]) :: with_cr ls
  end.

(** Whether a line, once trimmed, starts with "data: ". *)
Definition is_data_line (line : jsstring) : bool :=
  startsWith (u "data: ") (trim line).

(** A response with the given status and body, the body delivered in
    the given chunks. *)
Definition response (st : Z) (chunks : list jsstring)
           (failure : option Exn) : Client.Response :=
  {| Client.status := st; Client.body := Some (chunks, failure) |}.

End Framing.

(** ** The chat tab: what is shown for a message, and a whole turn *)

Module ChatView.
Import Js ChatTab.

(** [s.slice(start, end)] *)
Definition slice (start end_ : Z) (s : jsstring) : jsstring :=
  let len := Z.of_nat (length s) in
  let from :=
    if (start <? 0)%Z then Z.max (len + start) 0 else Z.min start len in
  let to :=
    if (end_ <? 0)%Z then Z.max (len + end_) 0 else Z.min end_ len in
  take (Z.to_nat (to - from)) (drop (Z.to_nat from) s).

(** The three ways the body of a message is rendered: the text of a
    user message as it is, the provider-error box with its text, or the
    content of the assistant handed to the formatter of think blocks. *)
Inductive Body :=
| UserText (text : jsstring)
| ProviderError (text : jsstring)
| AssistantText (content : jsstring).

Definition message_body (msg : Message) : Body :=
  match role msg with
  | user => UserText (content msg)
  | assistant =>
      if startsWith (u "[Error:") (content msg)
      then ProviderError (slice 8 (-1) (content msg))
      else AssistantText (content msg)
  end.

End ChatView.

Module ChatFlow.
Import Js Client Chat ChatTab.

(** The citations that the citations events among the steps leave on
    the placeholder, starting from [c0]. *)
Fixpoint citations_after (c0 : JsValue) (steps : list Step) : JsValue :=
  match steps with
  | [] => c0
  | Stop :: rest => citations_after c0 rest
  | Event event :: rest =>
      citations_after
        (if is_str (u "citations") (prop (u "type") event)
         then prop (u "citations") event else c0) rest
  end.

(** A reducer step for the pending call keeps the ids and every
    message that carries another id. *)
Definition framed (p : Pending) (before after : list Message) : Prop :=
  map id after = map id before /\
  forall i m, before !! i = Some m -> id m <> assistantId p ->
              after !! i = Some m.

(** The placeholder as [handleSend] creates it. *)
Definition fresh_placeholder (clk : Clock) (p : Pending) : Message :=
  {| id := assistantId p; role := assistant; content := [];
     citations := JUndefined; timestamp := date_assistant clk |}.

Section WithBuiltins.
Variable JSON_parse : jsstring -> Completion JsValue.
Variable NumberToString : JsNumber -> jsstring.

(** What the steps make of the placeholder [m]. *)
Definition placeholder_after (m : Message) (steps : list Step) : Message :=
  {| id := id m; role := role m;
     content := content m ++ Notions.tokens_text NumberToString steps;
     citations := citations_after (citations m) steps;
     timestamp := timestamp m |}.

(** [handleSend] consuming [streamChat] as the source wires them, with
    no stop pressed: each event yielded is one step. *)
Definition sendChat (clk : Clock) (fetched : Completion Response)
           (st : State) : State :=
  let '(events, ending) := streamChat JSON_parse NumberToString fetched in
  handleSend NumberToString clk (map Event events) ending st.

End WithBuiltins.
End ChatFlow.

(** ** The data tab: the sync and import tasks *)

Module DataTasks.
Import Js.

(** [type TaskStatus]; [failed] is the status "error". *)
Inductive TaskStatus := idle | running | success | failed.

(** [interface TaskState]; [message] holds what was stored, unchecked,
    and is [JUndefined] when absent; [progress] and [totals] are never
    written by the tab and are left out. *)
Record TaskState := {
  status : TaskStatus;
  message : JsValue;
  lastRun : option jsstring
}.

(** [status === "running"] *)
Definition is_running (t : TaskState) : bool :=
  match status t with
  | running => true
  | _ => false
  end.

(** [a ?? b] *)
Definition nullish (a b : JsValue) : JsValue :=
  match a with
  | JUndefined | JNull => b
  | _ => a
  end.

(** [err instanceof Error ? err.message : fallback] *)
Definition message_of (err : Exn) (fallback : jsstring) : jsstring :=
  match err with
  | Error m => m
  | Thrown _ => fallback
  end.

(** [setState((prev) => ({ ...prev, message }))] *)
Definition with_message (prev : TaskState) (m : JsValue) : TaskState :=
  {| status := status prev; message := m; lastRun := lastRun prev |}.

Section WithBuiltins.
Variable JSON_parse : jsstring -> Completion JsValue.
Variable NumberToString : JsNumber -> jsstring.
(** [v.toLocaleString()] for a value that is not null. *)
Variable toLocaleString : JsValue -> jsstring.
(** [new Date().toLocaleTimeString()] while the k-th event of the
    stream is handled. *)
Variable clock : nat -> jsstring.

(** *** handleSync *)

(** The body of the [for await] loop of [handleSync], on [syncState];
    [refreshStats] writes other state and does not throw. *)
Definition handleSync_event (k : nat) (event : JsValue) (prev : TaskState)
  : Completion TaskState :=
  match get_prop event (u "type") with
  | None => Throw (TypeError_prop event (u "type"))
  | Some t =>
      if is_str (u "progress") t then
        Normal (with_message prev (prop (u "message") event))
      else if is_str (u "done") t then
        let cancelled := prop (u "cancelled") event in
        let added :=
          ToString NumberToString (prop (u "messages_added") event) in
        Normal
          {| status := success;
             message :=
               JStr (if truthy cancelled
                     then u "Stopped " ++ [8212] ++ u " " ++ added
                          ++ u " messages synced so far"
                     else u "Synced " ++ added ++ u " messages");
             lastRun := Some (clock k) |}
      else Normal prev
  end.

Fixpoint handleSync_loop (k : nat) (events : list JsValue)
         (syncState : TaskState) : TaskState * option Exn :=
  match events with
  | [] => (syncState, None)
  | event :: rest =>
      match handleSync_event k event syncState with
      | Normal t => handleSync_loop (S k) rest t
      | Throw e => (syncState, Some e)
      end
  end.

(** [handleSync], given what the [fetch] of [/sync] resolved or
    rejected with: the [syncState] it leaves. *)
Definition handleSync (fetched : Completion Client.Response)
           (syncState : TaskState) : TaskState :=
  if is_running syncState then syncState
  else
    let started :=
      {| status := running; message := JStr (u "Starting sync...");
         lastRun := None |} in
    let '(events, ending) :=
      Relays.syncTelegram JSON_parse NumberToString fetched in
    let '(t, raised) := handleSync_loop 0 events started in
    match raised, ending with
    | Some e, _ | None, Throw e =>
        {| status := failed; message := JStr (message_of e (u "Sync failed"));
           lastRun := None |}
    | None, Normal _ => t
    end.

(** *** handleImport *)

(** The state of the tab that [handleImport] reads and writes;
    [selectedFile] is whether a file is selected. *)
Record ImportTab := {
  importState : TaskState;
  selectedFile : bool;
  useLocalPath : bool;
  localPathInput : jsstring
}.

Definition setImportState (t : TaskState) (tab : ImportTab) : ImportTab :=
  {| importState := t; selectedFile := selectedFile tab;
     useLocalPath := useLocalPath tab;
     localPathInput := localPathInput tab |}.

Definition setSelectedFile (f : bool) (tab : ImportTab) : ImportTab :=
  {| importState := importState tab; selectedFile := f;
     useLocalPath := useLocalPath tab;
     localPathInput := localPathInput tab |}.

(** [(useLocalPath && localPathInput.trim()) || selectedFile], as a
    condition. *)
Definition canStart (tab : ImportTab) : bool :=
  (useLocalPath tab && truthy (JStr (trim (localPathInput tab))))
  || selectedFile tab.

(** The body of the [for await] loop of [handleImport];
    [refreshStats] and [refreshChats] write other state and do not
    throw. *)
Definition handleImport_event (k : nat) (event : JsValue) (tab : ImportTab)
  : Completion ImportTab :=
  match get_prop event (u "type") with
  | None => Throw (TypeError_prop event (u "type"))
  | Some t =>
      if is_str (u "progress") t then
        Normal (setImportState
                  (with_message (importState tab) (prop (u "message") event))
                  tab)
      else if is_str (u "done") t then
        let count :=
          nullish (prop (u "messages_added") event)
            (nullish (prop (u "inserted") event) (JNum (mkNum 0 0))) in
        Normal
          (setSelectedFile false
             (setImportState
                {| status := success;
                   message :=
                     JStr (u "Imported " ++ toLocaleString count
                           ++ u " messages. Run Reindex to make them searchable.");
                   lastRun := Some (clock k) |} tab))
      else Normal tab
  end.

Fixpoint handleImport_loop (k : nat) (events : list JsValue)
         (tab : ImportTab) : ImportTab * option Exn :=
  match events with
  | [] => (tab, None)
  | event :: rest =>
      match handleImport_event k event tab with
      | Normal tab' => handleImport_loop (S k) rest tab'
      | Throw e => (tab, Some e)
      end
  end.

(** [handleImport], given what the [fetch] of the import endpoint
    called ([/import/path] or [/import]) resolved or rejected with. *)
Definition handleImport (fetched : Completion Client.Response)
           (tab : ImportTab) : ImportTab :=
  if negb (canStart tab) || is_running (importState tab) then tab
  else
    let tab1 :=
      setImportState
        {| status := running;
           message :=
             JStr (if useLocalPath tab then u "Starting import..."
                   else u "Uploading file and preparing stream...");
           lastRun := None |} tab in
    let '(events, ending) :=
      if useLocalPath tab
      then Relays.importJsonPath JSON_parse NumberToString fetched
      else Data.importJson JSON_parse fetched in
    let '(tab2, raised) := handleImport_loop 0 events tab1 in
    match raised, ending with
    | Some e, _ | None, Throw e =>
        setImportState
          {| status := failed;
             message := JStr (message_of e (u "Import failed"));
             lastRun := None |} tab2
    | None, Normal _ =>
        setImportState
          (if is_running (importState tab2)
           then {| status := idle;
                   message := JStr (u "Import session ended.");
                   lastRun := None |}
           else importState tab2) tab2
    end.

End WithBuiltins.
End DataTasks.

Module TaskExamples.
Import Js DataTasks Examples.

(** Small counts print the same in every locale. *)
Definition toLocaleString_int (v : JsValue) : jsstring :=
  ToString NumberToString_int v.

Definition clock_ex (k : nat) : jsstring := u "10:00:00".

Definition idle_state : TaskState :=
  {| status := idle; message := JUndefined; lastRun := None |}.

Definition upload_tab : ImportTab :=
  {| importState := idle_state; selectedFile := true;
     useLocalPath := false; localPathInput := [] |}.


(** A stream that the connection closes after a progress event, with
    neither a done event nor the end marker. *)
Definition cut_body : list jsstring :=
  [crlf2 (json_text "data: {'type':'progress','message':'Fetching'}")].

End TaskExamples.

(** * Properties *)

(** ** parseSseLine *)

Section ParseSseLine.
Import Js Client Notions Examples.
Variable JSON_parse : jsstring -> Completion JsValue.

(** C5. [parseSseLine] returns null for a line that does not start with
    "data: "; for a line that does, with [data] the trimmed rest: the
    done event when [data] is "[DONE]", the value [JSON.parse] returns
    for [data] when it returns one, and null when [JSON.parse] throws.
    It never throws. *)
Theorem parseSseLine_cases (line : jsstring) :
  let data := trim (slice_from 6 line) in
  (startsWith (u "data: ") line = false ->
   parseSseLine JSON_parse line = Normal JNull) /\
  (startsWith (u "data: ") line = true -> data = u "[DONE]" ->
   parseSseLine JSON_parse line
   = Normal (JObj [(u "type", JStr (u "done"))])) /\
  (forall v, startsWith (u "data: ") line = true -> data <> u "[DONE]" ->
   JSON_parse data = Normal v ->
   parseSseLine JSON_parse line = Normal v) /\
  (forall e, startsWith (u "data: ") line = true -> data <> u "[DONE]" ->
   JSON_parse data = Throw e ->
   parseSseLine JSON_parse line = Normal JNull) /\
  (exists v, parseSseLine JSON_parse line = Normal v).
Proof.
  intros data. unfold parseSseLine. fold data.
  destruct (startsWith (u "data: ") line) eqn:Hs; simpl.
  - unfold str_eqb. repeat split; try discriminate.
    + intros _ ->. by rewrite bool_decide_eq_true_2.
    + intros v _ Hne Hp. rewrite bool_decide_eq_false_2 by done.
      by rewrite Hp.
    + intros e _ Hne Hp. rewrite bool_decide_eq_false_2 by done.
      by rewrite Hp.
    + case_bool_decide; [eauto|]. destruct (JSON_parse data); simpl; eauto.
  - repeat split; try discriminate; eauto.
Qed.

End ParseSseLine.

(** The four cases of C5 on concrete lines, with the reference parser. *)
Lemma parseSseLine_cases_witness :
  Client.parseSseLine JSON_parse_ref (Js.u "event: x") = Js.Normal Js.JNull
  /\ Client.parseSseLine JSON_parse_ref (Js.u "data:   [DONE] ")
     = Js.Normal (Js.JObj [(Js.u "type", Js.JStr (Js.u "done"))])
  /\ Client.parseSseLine JSON_parse_ref (Js.json_text "data: {'type':'token'}")
     = Js.Normal (Js.JObj [(Js.u "type", Js.JStr (Js.u "token"))])
  /\ Client.parseSseLine JSON_parse_ref (Js.u "data: {oops")
     = Js.Normal Js.JNull.
Proof.
  split; [|split; [|split]].
  - apply (proj1 (parseSseLine_cases JSON_parse_ref (Js.u "event: x"))).
    reflexivity.
  - apply (proj1 (proj2
      (parseSseLine_cases JSON_parse_ref (Js.u "data:   [DONE] ")))).
    + reflexivity.
    + reflexivity.
  - apply (proj1 (proj2 (proj2
      (parseSseLine_cases JSON_parse_ref
         (Js.json_text "data: {'type':'token'}"))))).
    + reflexivity.
    + vm_compute. discriminate.
    + reflexivity.
  - apply (proj1 (proj2 (proj2 (proj2
      (parseSseLine_cases JSON_parse_ref (Js.u "data: {oops")))))
      (Js.Error (Js.u "Unexpected token in JSON"))).
    + reflexivity.
    + vm_compute. discriminate.
    + reflexivity.
Defined.

(** The text "[DONE]" is no JSON text, so the done case and the JSON
    case of [parseSseLine] do not overlap. *)
Lemma DONE_not_JSON : Json.parse (Js.u "[DONE]") = None.
Proof. reflexivity. Qed.

(** ** messagesReducer *)

Section MessagesReducer.
Import Js ChatTab Notions Examples.
Variable NumberToString : JsNumber -> jsstring.


Lemma update_where_length mid f state :
  length (update_where mid f state) = length state.
Proof. apply length_map. Qed.

Lemma update_where_lookup mid f state i :
  update_where mid f state !! i
  = (fun msg => if str_eqb (id msg) mid then f msg else msg)
      <$> state !! i.
Proof. apply list_lookup_fmap. Qed.

Lemma update_where_ids mid f state :
  (forall msg, id (f msg) = id msg) ->
  map id (update_where mid f state) = map id state.
Proof.
  intros Hf. unfold update_where. rewrite map_map. apply map_ext.
  intros msg. destruct (str_eqb (id msg) mid); auto.
Qed.

Lemma update_where_absent mid f state :
  (forall msg, msg ∈ state -> id msg <> mid) ->
  update_where mid f state = state.
Proof.
  induction state as [|m state IH]; intros H; [done|]. simpl.
  unfold str_eqb. rewrite bool_decide_eq_false_2.
  - f_equal. apply IH. intros msg Hin. apply H. by right.
  - apply H. by left.
Qed.

Lemma NoDup_ids_index (state : list Message) i j mi mj :
  NoDup (map id state) ->
  state !! i = Some mi -> state !! j = Some mj -> id mi = id mj -> i = j.
Proof.
  intros Hnd Hi Hj Heq.
  eapply NoDup_lookup; [exact Hnd| |].
  - rewrite list_lookup_fmap, Hi. reflexivity.
  - rewrite list_lookup_fmap, Hj. simpl. by rewrite Heq.
Qed.

Lemma update_where_single mid f state i j :
  NoDup (map id state) ->
  update_where mid f state !! i <> state !! i ->
  update_where mid f state !! j <> state !! j ->
  i = j.
Proof.
  intros Hnd Hi Hj. rewrite update_where_lookup in Hi, Hj.
  destruct (state !! i) as [mi|] eqn:Ei; [|done].
  destruct (state !! j) as [mj|] eqn:Ej; [|done].
  simpl in Hi, Hj. unfold str_eqb in Hi, Hj.
  destruct (bool_decide_reflect (id mi = mid)); [|done].
  destruct (bool_decide_reflect (id mj = mid)); [|done].
  eapply NoDup_ids_index; eauto. congruence.
Qed.

Lemma messagesReducer_append state mid token :
  messagesReducer NumberToString state (APPEND_TOKEN mid token)
  = update_where mid
      (fun msg => append_content NumberToString msg token) state.
Proof. reflexivity. Qed.

Lemma messagesReducer_citations state mid c :
  messagesReducer NumberToString state (SET_CITATIONS mid c)
  = update_where mid (fun msg => with_citations msg c) state.
Proof. reflexivity. Qed.

(** C9, as amended.  For an APPEND_TOKEN or SET_CITATIONS action with
    message id [mid] and update [f] (append the token to the content,
    respectively replace the citations), [messagesReducer] keeps the
    length of the list and the order of the ids, replaces each message
    whose id is [mid] by its update and leaves every other message as it
    is; when no message has that id the list is returned unchanged; and
    when the ids of the list are pairwise distinct, at most one
    position changes. *)
Theorem messagesReducer_frame (state : list Message) (action : MessageAction)
        (mid : jsstring) (f : Message -> Message) :
  (exists token, action = APPEND_TOKEN mid token /\
                 f = fun msg => append_content NumberToString msg token) \/
  (exists c, action = SET_CITATIONS mid c /\
             f = fun msg => with_citations msg c) ->
  let state' := messagesReducer NumberToString state action in
  length state' = length state /\
  map id state' = map id state /\
  (forall i msg, state !! i = Some msg ->
     state' !! i = Some (if bool_decide (id msg = mid) then f msg else msg)) /\
  ((forall msg, msg ∈ state -> id msg <> mid) -> state' = state) /\
  (NoDup (map id state) ->
   forall i j, state' !! i <> state !! i -> state' !! j <> state !! j ->
               i = j).
Proof.
  intros Hact state'.
  assert (state' = update_where mid f state) as ->.
  { subst state'. destruct Hact as [(t & -> & ->)|(c & -> & ->)];
      reflexivity. }
  assert (forall msg, id (f msg) = id msg) as Hid.
  { destruct Hact as [(t & _ & ->)|(c & _ & ->)]; reflexivity. }
  split; [apply update_where_length|].
  split; [by apply update_where_ids|].
  split; [|split].
  - intros i msg Hi. rewrite update_where_lookup, Hi. reflexivity.
  - apply update_where_absent.
  - intros Hnd i j. by apply update_where_single.
Qed.

End MessagesReducer.

Section MessagesReducerExamples.
Import Js ChatTab Notions Examples.


(** C9 as stated fails: in a list where two messages carry the id of
    the action, APPEND_TOKEN changes both of them. *)
Lemma messagesReducer_changes_two :
  let state := [msg_a; msg_b] in
  let state' := messagesReducer NumberToString_int state
                  (APPEND_TOKEN (u "1") (JStr (u "x"))) in
  state' !! 0%nat <> state !! 0%nat /\ state' !! 1%nat <> state !! 1%nat /\
  0%nat <> 1%nat.
Proof. vm_compute. repeat split; discriminate. Qed.

Lemma messagesReducer_frame_witness :
  let state := [msg_a; msg_c] in
  let state' := messagesReducer NumberToString_int state
                  (APPEND_TOKEN (u "2") (JStr (u "x"))) in
  length state' = length state /\
  state' !! 1%nat = Some (append_content NumberToString_int msg_c (JStr (u "x"))) /\
  state' !! 0%nat = Some msg_a.
Proof.
  pose proof (messagesReducer_frame NumberToString_int [msg_a; msg_c]
    (APPEND_TOKEN (u "2") (JStr (u "x"))) (u "2")
    (fun msg => append_content NumberToString_int msg (JStr (u "x")))
    (or_introl (ex_intro _ (JStr (u "x")) (conj eq_refl eq_refl))))
    as (Hlen & _ & Hat & _ & _).
  split; [exact Hlen|]. split.
  - exact (Hat 1%nat msg_c eq_refl).
  - exact (Hat 0%nat msg_a eq_refl).
Defined.

End MessagesReducerExamples.

(** ** handleSave *)

Section HandleSave.
Import Js SettingsTab Notions Examples.


Lemma handleSave_entry_kept key value updateData :
  handleSave_entry key value updateData
  = if kept key value then <[key := value]> updateData else updateData.
Proof.
  unfold handleSave_entry, kept.
  destruct value; try reflexivity; destruct (isSensitiveField key);
    try reflexivity.
Qed.

(** The payload holds exactly the entries that the loop body copies. *)
Lemma updateData_lookup (localSettings : gmap jsstring JsValue) key :
  map_fold handleSave_entry ∅ localSettings !! key
  = match localSettings !! key with
    | Some value => if kept key value then Some value else None
    | None => None
    end.
Proof.
  revert key.
  apply (map_fold_weak_ind
    (fun (r m : gmap jsstring JsValue) =>
       forall key, r !! key = match m !! key with
                             | Some value =>
                                 if kept key value then Some value else None
                             | None => None
                             end)).
  - intros key. by rewrite !lookup_empty.
  - intros k v m r Hk IH key. rewrite handleSave_entry_kept.
    destruct (decide (k = key)) as [->|Hne].
    + rewrite lookup_insert_eq. destruct (kept key v).
      * by rewrite lookup_insert_eq.
      * by rewrite IH, Hk.
    + rewrite (lookup_insert_ne m) by done. destruct (kept k v).
      * rewrite lookup_insert_ne by done. apply IH.
      * apply IH.
Qed.

(** C2. In the payload that [handleSave] passes to [saveSettings], a
    sensitive key whose local value is the sentinel "****" has no
    entry, and every non-sensitive key whose local value is defined has
    that value. *)
Theorem handleSave_payload
        (settings : option (gmap jsstring JsValue))
        (localSettings updateData : gmap jsstring JsValue) :
  handleSave settings localSettings = Some updateData ->
  (forall key, isSensitiveField key = true ->
     localSettings !! key = Some (JStr (u "****")) ->
     updateData !! key = None) /\
  (forall key value, isSensitiveField key = false ->
     localSettings !! key = Some value -> value <> JUndefined ->
     updateData !! key = Some value).
Proof.
  unfold handleSave. destruct settings as [s|]; [|discriminate].
  intros [= <-]. split.
  - intros key Hs Hk. rewrite updateData_lookup, Hk.
    unfold kept. rewrite Hs. reflexivity.
  - intros key value Hs Hk Hdef. rewrite updateData_lookup, Hk.
    unfold kept. rewrite Hs. by destruct value.
Qed.

End HandleSave.

Section HandleSaveExamples.
Import Js SettingsTab Notions Examples.


Lemma handleSave_payload_witness :
  exists updateData,
    handleSave (Some localSettings_ex) localSettings_ex = Some updateData /\
    updateData !! u "api_key" = None /\
    updateData !! u "top_k" = Some (JNum (mkNum 5 0)).
Proof.
  eexists. split; [reflexivity|].
  pose proof (handleSave_payload (Some localSettings_ex) localSettings_ex
                _ eq_refl) as [H1 H2].
  split.
  - apply H1; [reflexivity|]. vm_compute. reflexivity.
  - apply H2; [reflexivity| |discriminate]. vm_compute. reflexivity.
Defined.

End HandleSaveExamples.

(** ** filteredChats *)

Section FilteredChats.
Import Js DataTab Notions Examples.
Variable toLowerCase : jsstring -> jsstring.

(** C10. A chat with [included = false] and [message_count = 0] is not
    in [filteredChats] under the "all" filter when the search query
    trims to the empty string; and whenever such a chat is in
    [filteredChats], either the filter is "all" and the trimmed query is
    not empty, or the filter is "excluded". *)
Theorem filteredChats_all_hides_empty_excluded
        (chats : list Chat) (chatsFilter : ChatsFilter)
        (searchQuery : jsstring) (chat : Chat) :
  included chat = false -> message_count chat = 0%Z ->
  (chatsFilter = all -> trim searchQuery = [] ->
   chat ∉ filteredChats toLowerCase chats chatsFilter searchQuery) /\
  (chat ∈ filteredChats toLowerCase chats chatsFilter searchQuery ->
   (chatsFilter = all /\ trim searchQuery <> []) \/
   chatsFilter = only_excluded).
Proof.
  intros Hinc Hcnt. unfold filteredChats. split.
  - intros -> Hq Hin. apply list_elem_of_In, filter_In in Hin.
    destruct Hin as [_ Hm]. unfold chat_matches in Hm.
    rewrite Hinc, Hcnt, Hq in Hm. simpl in Hm. discriminate.
  - intros Hin. apply list_elem_of_In, filter_In in Hin.
    destruct Hin as [_ Hm]. unfold chat_matches in Hm.
    rewrite Hinc, Hcnt in Hm. destruct chatsFilter; simpl in Hm.
    + left. split; [done|]. intros Hq. rewrite Hq in Hm. discriminate.
    + discriminate.
    + by right.
Qed.

End FilteredChats.

Section FilteredChatsExamples.
Import Js DataTab Notions Examples.


Lemma filteredChats_all_hides_empty_excluded_witness :
  (chat_ex ∉ filteredChats ascii_toLowerCase [chat_ex] all (u "  ")) /\
  ((all = all /\ trim (u "ali") <> []) \/ all = only_excluded).
Proof.
  pose proof (filteredChats_all_hides_empty_excluded ascii_toLowerCase
                [chat_ex] all (u "  ") chat_ex eq_refl eq_refl) as [H1 _].
  pose proof (filteredChats_all_hides_empty_excluded ascii_toLowerCase
                [chat_ex] all (u "ali") chat_ex eq_refl eq_refl) as [_ H2].
  split; [apply H1; reflexivity | apply H2].
  vm_compute. apply list_elem_of_here.
Defined.

(** The same chat is listed under "all" once a search is active, and
    under "excluded". *)
Lemma filteredChats_visible_examples :
  filteredChats ascii_toLowerCase [chat_ex] all (u "ali") = [chat_ex] /\
  filteredChats ascii_toLowerCase [chat_ex] only_excluded [] = [chat_ex] /\
  filteredChats ascii_toLowerCase [chat_ex] all (u " ") = [].
Proof. repeat split; reflexivity. Qed.

End FilteredChatsExamples.

(** ** apiFetch *)

Section ApiFetch.
Import Js Client Notions Examples.
Variable JSON_parse : jsstring -> Completion JsValue.
Variable NumberToString : JsNumber -> jsstring.

Local Abbreviation apiFetch := (apiFetch JSON_parse NumberToString).
Local Abbreviation json := (json JSON_parse).
Local Abbreviation ToString := (ToString NumberToString).

(** Induction on a parsed value through the elements of its arrays. *)
Lemma JsValue_elems_ind (P : JsValue -> Prop) :
  P JUndefined -> P JNull -> (forall b, P (JBool b)) ->
  (forall n, P (JNum n)) -> (forall s, P (JStr s)) ->
  (forall elems, Forall P elems -> P (JArr elems)) ->
  (forall fields, P (JObj fields)) ->
  forall v, P v.
Proof.
  intros Hu Hn Hb Hnum Hs Harr Hobj.
  fix IH 1. intros v.
  destruct v as [ | | b | n | s | elems | fields ].
  - exact Hu.
  - exact Hn.
  - exact (Hb b).
  - exact (Hnum n).
  - exact (Hs s).
  - apply Harr. induction elems as [|e elems IHl].
    + constructor.
    + constructor; [exact (IH e) | exact IHl].
  - exact (Hobj fields).
Qed.

(** The conversion of [new Error(v)] gives the string form of a
    convertible value and throws the TypeError on any other. *)
Lemma ToString_c_cases (v : JsValue) :
  ToString_c NumberToString v
  = if convertible v then Normal (ToString v) else Throw TypeError_convert.
Proof.
  induction v as [ | | b | n | s | elems IH | fields ]
    using JsValue_elems_ind; try reflexivity.
  - by destruct b.
  - simpl.
    match goal with
    | |- match ?j elems with _ => _ end = _ =>
        assert (j elems
                = if forallb convertible elems
                  then Normal (map (fun e => match e with
                                             | JUndefined | JNull => []
                                             | _ => ToString e
                                             end) elems)
                  else Throw TypeError_convert) as ->
    end.
    + induction IH as [|e elems He _ IHl]; [reflexivity|].
      rewrite IHl. cbn [forallb map].
      assert (match e with
              | JUndefined | JNull => Normal []
              | _ => ToString_c NumberToString e
              end
              = if convertible e
                then Normal match e with
                            | JUndefined | JNull => []
                            | _ => ToString e
                            end
                else Throw TypeError_convert) as ->
        by (destruct e; first [reflexivity | exact He]).
      by destruct (convertible e), (forallb convertible elems).
    + by destruct (forallb convertible elems).
  - simpl. by destruct (has_own (u "toString") fields).
Qed.

Lemma new_Error_cases (v : JsValue) :
  new_Error NumberToString v
  = if convertible v then Error (ToString v) else TypeError_convert.
Proof.
  unfold new_Error. rewrite ToString_c_cases. by destruct (convertible v).
Qed.

(** C7, as amended.  On a response whose status is not 2xx [apiFetch]
    throws.  When the body's [error] field is truthy, or else its
    [detail] field is, it throws an Error whose message is the string
    form of that field, or, when the field has none (an object with an
    own [toString] entry, or an array that holds one), the TypeError of
    converting it.  Otherwise it throws an Error with the message
    "HTTP <status>", which includes a body that cannot be read as JSON
    or is [null].  On a 2xx response it returns the parsed body when
    the body is JSON text and throws what reading the body throws when
    it is not. *)
Theorem apiFetch_cases (res : Response) :
  let fallback := u "HTTP " ++ Z_toString (status res) in
  (forall errorData e, ok res = false -> json res = Normal errorData ->
     get_prop errorData (u "error") = Some e -> truthy e = true ->
     (convertible e = true ->
      apiFetch (Normal res) = Throw (Error (ToString e))) /\
     (convertible e = false ->
      apiFetch (Normal res) = Throw TypeError_convert)) /\
  (forall errorData e d, ok res = false -> json res = Normal errorData ->
     get_prop errorData (u "error") = Some e -> truthy e = false ->
     get_prop errorData (u "detail") = Some d -> truthy d = true ->
     (convertible d = true ->
      apiFetch (Normal res) = Throw (Error (ToString d))) /\
     (convertible d = false ->
      apiFetch (Normal res) = Throw TypeError_convert)) /\
  (forall errorData e d, ok res = false -> json res = Normal errorData ->
     get_prop errorData (u "error") = Some e -> truthy e = false ->
     get_prop errorData (u "detail") = Some d -> truthy d = false ->
     apiFetch (Normal res) = Throw (Error fallback)) /\
  (forall errorData, ok res = false -> json res = Normal errorData ->
     get_prop errorData (u "error") = None ->
     apiFetch (Normal res) = Throw (Error fallback)) /\
  (forall e, ok res = false -> json res = Throw e ->
     apiFetch (Normal res) = Throw (Error fallback)) /\
  (ok res = false -> exists message,
     apiFetch (Normal res) = Throw (Error message)) /\
  (ok res = true -> apiFetch (Normal res) = json res).
Proof.
  intros fallback. unfold Client.apiFetch. rewrite new_Error_cases.
  unfold errorMessage. fold fallback.
  split_and!.
  - intros d e -> Hj He Ht. simpl. rewrite Hj, He, Ht.
    split; intros ->; reflexivity.
  - intros d e dd -> Hj He Ht Hd Htd. simpl.
    rewrite Hj, He, Ht, Hd. unfold or_else. rewrite Htd.
    split; intros ->; reflexivity.
  - intros d e dd -> Hj He Ht Hd Htd. simpl.
    rewrite Hj, He, Ht, Hd. unfold or_else. by rewrite Htd.
  - intros d -> Hj He. simpl. by rewrite Hj, He.
  - intros e -> Hj. simpl. by rewrite Hj.
  - intros ->. simpl.
    match goal with
    | |- context [convertible ?v] => destruct (convertible v)
    end; eauto.
  - intros ->. reflexivity.
Qed.

End ApiFetch.

Section ApiFetchExamples.
Import Js Client Notions Examples.


(** C7 as stated fails: a 200 response whose body is no JSON text makes
    [apiFetch] throw. *)
Lemma apiFetch_throws_on_2xx :
  ok (response_of 200 (u "<html>OK</html>")) = true /\
  apiFetch JSON_parse_ref NumberToString_int
    (Normal (response_of 200 (u "<html>OK</html>")))
  = Throw (Error (u "Unexpected token in JSON")).
Proof. split; reflexivity. Qed.

(** An [error] field that is present but empty is passed over for
    [detail]. *)
Lemma apiFetch_empty_error_field :
  apiFetch JSON_parse_ref NumberToString_int
    (Normal (response_of 500 (json_text "{'error':'','detail':'boom'}")))
  = Throw (Error (u "boom")).
Proof. reflexivity. Qed.

(** An [error] field that is an object with an own [toString] entry
    has no string form: building the Error throws a TypeError. *)
Lemma apiFetch_unconvertible_error_field :
  apiFetch JSON_parse_ref NumberToString_int
    (Normal (response_of 500 (json_text "{'error':{'toString':1}}")))
  = Throw (Error (u "Cannot convert object to primitive value")) /\
  apiFetch JSON_parse_ref NumberToString_int
    (Normal (response_of 500 (json_text "{'detail':[1,{'toString':1}]}")))
  = Throw (Error (u "Cannot convert object to primitive value")) /\
  apiFetch JSON_parse_ref NumberToString_int
    (Normal (response_of 500 (json_text "{'error':{'code':7}}")))
  = Throw (Error (u "[object Object]")) /\
  apiFetch JSON_parse_ref NumberToString_int
    (Normal (response_of 500 (json_text "{'error':[1,null,[2,3]]}")))
  = Throw (Error (u "1,,2,3")).
Proof. repeat split; reflexivity. Qed.

Lemma apiFetch_cases_witness :
  apiFetch JSON_parse_ref NumberToString_int
    (Normal (response_of 404 (json_text "{'detail':'Not Found'}")))
  = Throw (Error (u "Not Found")) /\
  apiFetch JSON_parse_ref NumberToString_int
    (Normal (response_of 500 (json_text "{'error':{'toString':1}}")))
  = Throw TypeError_convert /\
  apiFetch JSON_parse_ref NumberToString_int
    (Normal (response_of 502 (u "Bad Gateway")))
  = Throw (Error (u "HTTP 502")) /\
  apiFetch JSON_parse_ref NumberToString_int
    (Normal (response_of 200 (json_text "{'ok':true}")))
  = Normal (JObj [(u "ok", JBool true)]).
Proof.
  pose proof (apiFetch_cases JSON_parse_ref NumberToString_int
    (response_of 404 (json_text "{'detail':'Not Found'}")))
    as (_ & H2 & _).
  pose proof (apiFetch_cases JSON_parse_ref NumberToString_int
    (response_of 500 (json_text "{'error':{'toString':1}}")))
    as (H1 & _).
  pose proof (apiFetch_cases JSON_parse_ref NumberToString_int
    (response_of 502 (u "Bad Gateway"))) as (_ & _ & _ & _ & H5 & _).
  pose proof (apiFetch_cases JSON_parse_ref NumberToString_int
    (response_of 200 (json_text "{'ok':true}")))
    as (_ & _ & _ & _ & _ & _ & H7).
  split_and!.
  - apply (H2 (JObj [(u "detail", JStr (u "Not Found"))]) JUndefined
              (JStr (u "Not Found"))); reflexivity.
  - apply (H1 (JObj [(u "error",
                      JObj [(u "toString", JNum (mkNum 1 0))])])
              (JObj [(u "toString", JNum (mkNum 1 0))]));
      reflexivity.
  - apply (H5 (Error (u "Unexpected token in JSON"))); reflexivity.
  - rewrite H7; reflexivity.
Defined.

End ApiFetchExamples.

(** ** The SSE generators *)

Section SplitLines.
Import Js Notions Examples.

Lemma split_nl_nonempty s : split_nl s <> [].
Proof.
  destruct s as [|c s]; simpl; [done|].
  destruct (c =? 10); [done|]. by destruct (split_nl s).
Qed.

Lemma split_nl_cons c s :
  split_nl (c :: s)
  = if c =? 10 then [] :: split_nl s
    else (c :: default [] (head (split_nl s))) :: tail (split_nl s).
Proof.
  simpl. destruct (c =? 10); [done|].
  pose proof (split_nl_nonempty s). by destruct (split_nl s).
Qed.

(** Splitting a text received in two pieces: the complete lines of the
    first piece, then the lines of its unfinished last line followed by
    the second piece. *)
Lemma split_nl_app a b :
  split_nl (a ++ b)
  = removelast (split_nl a) ++ split_nl (default [] (last (split_nl a)) ++ b).
Proof.
  induction a as [|c a IH]; [reflexivity|].
  rewrite <- app_comm_cons, !split_nl_cons, IH.
  pose proof (split_nl_nonempty a) as Hne.
  destruct (split_nl a) as [|l ls] eqn:E; [done|]. clear Hne IH E.
  destruct (c =? 10) eqn:Ec; [reflexivity|].
  destruct ls as [|l' ls'].
  - change (removelast [l]) with (@nil jsstring).
    cbn [app head tail default last]. unfold id.
    change (removelast [c :: l] ++ split_nl ((c :: l) ++ b))
      with (split_nl (c :: (l ++ b))).
    rewrite split_nl_cons, Ec. reflexivity.
  - reflexivity.
Qed.

(** The last segment of a split holds no line feed. *)
Lemma split_nl_last s :
  split_nl (default [] (last (split_nl s))) = [default [] (last (split_nl s))].
Proof.
  induction s as [|c s IH]; [reflexivity|].
  rewrite split_nl_cons. pose proof (split_nl_nonempty s) as Hne.
  destruct (c =? 10) eqn:Ec.
  - destruct (split_nl s) as [|l ls]; [done|]. exact IH.
  - destruct (split_nl s) as [|l ls]; [done|]. destruct ls as [|l' ls'].
    + simpl in IH |- *. unfold id in *. rewrite Ec, IH. reflexivity.
    + exact IH.
Qed.

End SplitLines.


Lemma removelast_split_nl_app a b :
  removelast (Js.split_nl (a ++ b))
  = removelast (Js.split_nl a)
    ++ removelast (Js.split_nl (default [] (last (Js.split_nl a)) ++ b)).
Proof.
  rewrite split_nl_app. apply removelast_app, split_nl_nonempty.
Qed.


Section ApiStream.
Import Js Client Notions Examples.
Variable JSON_parse : jsstring -> Completion JsValue.
Variable NumberToString : JsNumber -> jsstring.

Local Abbreviation parseSseLine := (parseSseLine JSON_parse).
Local Abbreviation apiStream_lines := (apiStream_lines JSON_parse).
Local Abbreviation apiStream_read := (apiStream_read JSON_parse).
Local Abbreviation apiStream := (apiStream JSON_parse NumberToString).

Lemma apiStream_lines_app l1 l2 :
  apiStream_lines (l1 ++ l2)
  = match apiStream_lines l1 with
    | (evs, Some c) => (evs, Some c)
    | (evs, None) =>
        let '(evs', r) := apiStream_lines l2 in (evs ++ evs', r)
    end.
Proof.
  induction l1 as [|line l1 IH]; simpl.
  - by destruct (apiStream_lines l2).
  - destruct (parseSseLine (trim line)) as [event|e]; [|done].
    destruct (truthy event); [|exact IH].
    destruct (type_is (u "done") event); [done|].
    rewrite IH. destruct (apiStream_lines l1) as [evs [c|]]; [done|].
    by destruct (apiStream_lines l2).
Qed.

(** The read loop yields what the line loop yields on the complete
    lines of the whole text, however the text is cut into chunks.  The
    buffer holds an unfinished line. *)
Lemma apiStream_read_lines chunks failure buffer :
  split_nl buffer = [buffer] ->
  apiStream_read chunks failure buffer
  = let '(evs, r) :=
      apiStream_lines (removelast (split_nl (buffer ++ concat chunks))) in
    (evs, default (body_end failure) r).
Proof.
  revert buffer. induction chunks as [|value chunks IH]; intros buffer Hb.
  - simpl. rewrite app_nil_r, Hb. simpl. by destruct failure.
  - cbn [Client.apiStream_read concat pop].
    rewrite (app_assoc buffer value).
    rewrite (removelast_split_nl_app (buffer ++ value) (concat chunks)).
    rewrite apiStream_lines_app.
    destruct (apiStream_lines (removelast (split_nl (buffer ++ value))))
      as [evs [c|]]; [done|].
    rewrite IH by apply split_nl_last.
    by destruct (apiStream_lines _).
Qed.

(** What the line loop yields: truthy values only, none of type done
    except possibly the last, which then ends the generator. *)
Lemma apiStream_lines_shape lines evs r :
  apiStream_lines lines = (evs, r) ->
  Forall (fun e => truthy e = true) evs /\
  ((exists pre d, evs = pre ++ [d] /\ type_is (u "done") d = true /\
                  r = Some (Normal tt) /\
                  Forall (fun e => type_is (u "done") e = false) pre)
   \/ (r <> Some (Normal tt) /\
       Forall (fun e => type_is (u "done") e = false) evs)).
Proof.
  revert evs r. induction lines as [|line lines IH]; intros evs r; simpl.
  - intros [= <- <-]. split; [constructor|]. right. split; [done|constructor].
  - destruct (parseSseLine (trim line)) as [event|e].
    + destruct (truthy event) eqn:Ht; [|apply IH].
      destruct (type_is (u "done") event) eqn:Hd.
      * intros [= <- <-]. split; [by constructor|]. left.
        exists [], event. repeat split; [done|constructor].
      * destruct (apiStream_lines lines) as [evs' r'].
        intros [= <- <-]. destruct (IH evs' r' eq_refl) as [Hall Hsh].
        split; [by constructor|].
        destruct Hsh as [(pre & d & -> & Hdd & -> & Hpre)|[Hr Hnd]].
        -- left. exists (event :: pre), d. repeat split; [done|].
           by constructor.
        -- right. split; [done|by constructor].
    + intros [= <- <-]. split; [constructor|]. right.
      split; [done|constructor].
Qed.

Lemma filter_none {A} (f : A -> bool) l :
  Forall (fun x => f x = false) l -> List.filter f l = [].
Proof.
  induction 1 as [|x l Hx _ IH]; [done|]. simpl. by rewrite Hx.
Qed.

Lemma shape_done_last (evs : list JsValue) :
  ((exists pre d, evs = pre ++ [d] /\ type_is (u "done") d = true /\
                  Forall (fun e => type_is (u "done") e = false) pre)
   \/ Forall (fun e => type_is (u "done") e = false) evs) ->
  (forall i e, evs !! i = Some e -> type_is (u "done") e = true ->
               S i = length evs) /\
  (length (List.filter (type_is (u "done")) evs) <= 1)%nat.
Proof.
  intros [(pre & d & -> & Hd & Hpre)|Hnone].
  - split.
    + intros i e Hi He. rewrite length_app. simpl.
      destruct (decide (i < length pre)%nat) as [Hlt|Hge].
      * rewrite lookup_app_l in Hi by done.
        rewrite Forall_lookup in Hpre. specialize (Hpre i e Hi).
        simpl in Hpre. congruence.
      * apply lookup_lt_Some in Hi. rewrite length_app in Hi.
        simpl in Hi. lia.
    + rewrite List.filter_app, length_app, filter_none by done.
      simpl. rewrite Hd. simpl. lia.
  - split.
    + intros i e Hi He. rewrite Forall_lookup in Hnone.
      specialize (Hnone i e Hi). simpl in Hnone. congruence.
    + rewrite filter_none by done. simpl. lia.
Qed.

(** The events of [apiStream] on a 2xx response are those of the line
    loop on the complete lines of the body. *)
Lemma apiStream_ok_lines res :
  ok res = true -> is_Some (body res) ->
  apiStream (Normal res)
  = let '(evs, r) := apiStream_lines (sse_lines (body_chunks res)) in
    (evs, default (body_end (body_failure res)) r).
Proof.
  intros Hok [[chunks failure] Hb].
  unfold Client.apiStream, body_chunks, body_failure.
  rewrite Hok, Hb. simpl.
  by rewrite apiStream_read_lines.
Qed.

(** On a 2xx response without a body [apiStream] yields nothing and
    throws the TypeError of [getReader]. *)
Lemma apiStream_ok_no_body res :
  ok res = true -> body res = None ->
  apiStream (Normal res) = ([], Throw TypeError_getReader).
Proof.
  intros Hok Hb. unfold Client.apiStream. by rewrite Hok, Hb.
Qed.

(** A response of which a line was received has a body. *)
Lemma sse_lines_body res :
  sse_lines (body_chunks res) <> [] -> is_Some (body res).
Proof.
  unfold body_chunks. destruct (body res) as [[chunks failure]|]; [eauto|].
  intros H. by destruct H.
Qed.

Lemma apiStream_shape fetched :
  Forall (fun e => truthy e = true) (apiStream fetched).1 /\
  ((exists pre d, (apiStream fetched).1 = pre ++ [d] /\
                  type_is (u "done") d = true /\
                  Forall (fun e => type_is (u "done") e = false) pre)
   \/ Forall (fun e => type_is (u "done") e = false) (apiStream fetched).1).
Proof.
  destruct fetched as [res|e]; [|simpl; split; [constructor|right; constructor]].
  destruct (ok res) eqn:Hok.
  - destruct (body res) as [b|] eqn:Hb;
      [|rewrite apiStream_ok_no_body by done;
        simpl; split; [constructor|right; constructor]].
    rewrite apiStream_ok_lines by (rewrite ?Hb; eauto).
    destruct (apiStream_lines (sse_lines (body_chunks res))) as [evs r] eqn:E.
    apply apiStream_lines_shape in E as [Hall Hsh]. simpl.
    split; [done|].
    destruct Hsh as [(pre & d & -> & Hd & _ & Hpre)|[_ Hn]]; [left|by right].
    by exists pre, d.
  - unfold Client.apiStream. rewrite Hok. simpl.
    split; [constructor|right; constructor].
Qed.

(** A line that is [data: [DONE]] once trimmed ends the line loop with
    the done event. *)
Lemma apiStream_lines_DONE l post :
  trim l = u "data: [DONE]" ->
  apiStream_lines (l :: post)
  = ([JObj [(u "type", JStr (u "done"))]], Some (Normal tt)).
Proof. intros Hl. simpl. unfold Client.parseSseLine. rewrite Hl. reflexivity. Qed.

Lemma apiStream_lines_after_DONE pre l post :
  trim l = u "data: [DONE]" ->
  apiStream_lines (pre ++ l :: post) = apiStream_lines (pre ++ [l]).
Proof.
  intros Hl. rewrite !apiStream_lines_app.
  by rewrite !(apiStream_lines_DONE l) by done.
Qed.

End ApiStream.

Section ImportJson.
Import Js Client Data Notions Examples.
Variable JSON_parse : jsstring -> Completion JsValue.

Local Abbreviation importJson_lines := (importJson_lines JSON_parse).
Local Abbreviation importJson_read := (importJson_read JSON_parse).
Local Abbreviation importJson := (importJson JSON_parse).

Lemma importJson_lines_cons line rest :
  importJson_lines (line :: rest)
  = if negb (startsWith (u "data: ") (trim line)) then importJson_lines rest
    else if str_eqb (slice_from 6 (trim line)) (u "[DONE]")
         then ([], Some (Normal tt))
         else match JSON_parse (slice_from 6 (trim line)) with
              | Normal event =>
                  let '(evs, r) := importJson_lines rest in (event :: evs, r)
              | Throw _ => importJson_lines rest
              end.
Proof. reflexivity. Qed.

Lemma importJson_lines_app l1 l2 :
  importJson_lines (l1 ++ l2)
  = match importJson_lines l1 with
    | (evs, Some c) => (evs, Some c)
    | (evs, None) =>
        let '(evs', r) := importJson_lines l2 in (evs ++ evs', r)
    end.
Proof.
  induction l1 as [|line l1 IH].
  - simpl. by destruct (importJson_lines l2).
  - rewrite <- app_comm_cons, !importJson_lines_cons.
    destruct (startsWith (u "data: ") (trim line)); cbn [negb]; [|exact IH].
    destruct (str_eqb (slice_from 6 (trim line)) (u "[DONE]")); [done|].
    destruct (JSON_parse (slice_from 6 (trim line))) as [event|e];
      [|exact IH].
    rewrite IH. destruct (importJson_lines l1) as [evs [c|]]; [done|].
    by destruct (importJson_lines l2).
Qed.

Lemma importJson_read_lines chunks failure buffer :
  split_nl buffer = [buffer] ->
  importJson_read chunks failure buffer
  = let '(evs, r) :=
      importJson_lines (removelast (split_nl (buffer ++ concat chunks))) in
    (evs, default (body_end failure) r).
Proof.
  revert buffer. induction chunks as [|value chunks IH]; intros buffer Hb.
  - simpl. rewrite app_nil_r, Hb. simpl. by destruct failure.
  - cbn [Data.importJson_read concat pop].
    rewrite (app_assoc buffer value).
    rewrite (removelast_split_nl_app (buffer ++ value) (concat chunks)).
    rewrite importJson_lines_app.
    destruct (importJson_lines (removelast (split_nl (buffer ++ value))))
      as [evs [c|]]; [done|].
    rewrite IH by apply split_nl_last.
    by destruct (importJson_lines _).
Qed.

Lemma importJson_ok_lines res :
  ok res = true -> is_Some (body res) ->
  importJson (Normal res)
  = let '(evs, r) := importJson_lines (sse_lines (body_chunks res)) in
    (evs, default (body_end (body_failure res)) r).
Proof.
  intros Hok [[chunks failure] Hb].
  unfold Data.importJson, body_chunks, body_failure.
  rewrite Hok, Hb. simpl.
  by rewrite importJson_read_lines.
Qed.

(** On a 2xx response without a body [importJson] yields nothing and
    throws the TypeError of [getReader]. *)
Lemma importJson_ok_no_body res :
  ok res = true -> body res = None ->
  importJson (Normal res) = ([], Throw TypeError_getReader).
Proof.
  intros Hok Hb. unfold Data.importJson. by rewrite Hok, Hb.
Qed.

Lemma importJson_lines_DONE l post :
  trim l = u "data: [DONE]" ->
  importJson_lines (l :: post) = ([], Some (Normal tt)).
Proof. intros Hl. rewrite importJson_lines_cons, Hl. reflexivity. Qed.

Lemma importJson_lines_before_DONE pre l post :
  trim l = u "data: [DONE]" ->
  (importJson_lines (pre ++ l :: post)).1 = (importJson_lines pre).1.
Proof.
  intros Hl. rewrite importJson_lines_app, importJson_lines_DONE by done.
  destruct (importJson_lines pre) as [evs [c|]]; simpl; [done|].
  by rewrite app_nil_r.
Qed.

End ImportJson.

Section SseGenerators.
Import Js Client Data Notions Examples.
Variable JSON_parse : jsstring -> Completion JsValue.
Variable NumberToString : JsNumber -> jsstring.

(** C4, as amended.  [apiStream] yields at most one event of type done,
    and that event is the last one it yields.  On a 2xx response whose
    complete lines are [pre], then a line that trims to [data: [DONE]],
    then [post]: [apiStream] yields what its line loop yields on [pre]
    and the done line, and [importJson] yields what its line loop
    yields on [pre]; neither yields anything for [post].  (Nothing is
    said on how many events of type done [importJson] yields.) *)
Theorem sse_generators_done (fetched : Completion Response) :
  let evs := (apiStream JSON_parse NumberToString fetched).1 in
  (length (List.filter (type_is (u "done")) evs) <= 1)%nat /\
  (forall i e, evs !! i = Some e -> type_is (u "done") e = true ->
               S i = length evs) /\
  (forall res pre l post,
     fetched = Normal res -> ok res = true ->
     sse_lines (body_chunks res) = pre ++ l :: post ->
     trim l = u "data: [DONE]" ->
     apiStream JSON_parse NumberToString fetched
     = ((apiStream_lines JSON_parse pre).1
          ++ match (apiStream_lines JSON_parse pre).2 with
             | Some _ => []
             | None => [JObj [(u "type", JStr (u "done"))]]
             end,
        default (Normal tt) (apiStream_lines JSON_parse pre).2) /\
     (importJson JSON_parse fetched).1 = (importJson_lines JSON_parse pre).1).
Proof.
  intros evs.
  destruct (apiStream_shape JSON_parse NumberToString fetched) as [_ Hsh].
  destruct (shape_done_last evs Hsh) as [Hlast Hcount].
  split; [exact Hcount|]. split; [exact Hlast|].
  intros res pre l post -> Hok Hlines Hl.
  assert (is_Some (body res)) as Hbody
    by (apply sse_lines_body; rewrite Hlines; by destruct pre).
  split.
  - rewrite apiStream_ok_lines, Hlines by done.
    rewrite apiStream_lines_app, (apiStream_lines_DONE _ l) by done.
    destruct (apiStream_lines JSON_parse pre) as [evs0 [c|]]; simpl.
    + by rewrite app_nil_r.
    + reflexivity.
  - rewrite importJson_ok_lines, Hlines by done.
    rewrite <- (importJson_lines_before_DONE JSON_parse pre l post Hl).
    by destruct (Data.importJson_lines JSON_parse (pre ++ l :: post)).
Qed.

End SseGenerators.

Section SseExamples.
Import Js Client Data Notions Examples.





(** C4 as stated fails for [importJson]: it forwards every JSON event,
    so two events of type done are both yielded. *)
Lemma importJson_yields_two_done :
  (importJson JSON_parse_ref (Normal (ok_response import_body))).1
  = [done_counts; done_counts] /\
  length (List.filter (type_is (u "done"))
            (importJson JSON_parse_ref
               (Normal (ok_response import_body))).1) = 2%nat.
Proof. split; vm_compute; reflexivity. Qed.


Lemma sse_generators_done_witness :
  apiStream JSON_parse_ref NumberToString_int
    (Normal (ok_response (marked_body)))
  = ([done_counts], Normal tt) /\
  (importJson JSON_parse_ref (Normal (ok_response marked_body))).1
  = [done_counts].
Proof.
  pose proof (sse_generators_done JSON_parse_ref NumberToString_int
                (Normal (ok_response marked_body))) as (_ & _ & H).
  specialize (H (ok_response marked_body)
                [json_text "data: {'type':'done','messages_added':3}" ++ [13];
                 [13]]
                (u "data: [DONE]" ++ [13])
                [[13]; json_text "data: {'type':'late'}"]
                eq_refl eq_refl eq_refl eq_refl).
  exact H.
Defined.

End SseExamples.

(** ** streamChat *)

Section StreamChat.
Import Js Client Chat Notions Examples.
Variable JSON_parse : jsstring -> Completion JsValue.
Variable NumberToString : JsNumber -> jsstring.


Lemma get_prop_truthy event k :
  truthy event = true -> get_prop event k = Some (prop k event).
Proof. by destruct event. Qed.

Lemma streamChat_over_filter events ending :
  Forall (fun e => truthy e = true) events ->
  streamChat_over events ending = (List.filter forwarded events, ending).
Proof.
  induction 1 as [|event events Ht _ IH]; [reflexivity|].
  cbn [streamChat_over List.filter].
  rewrite (get_prop_truthy event (u "type") Ht), IH.
  unfold forwarded, type_is. by destruct (_ || _).
Qed.

Lemma forwarded_not_reasoning event :
  forwarded event = true -> type_is (u "reasoning") event = false.
Proof.
  unfold forwarded, type_is, is_str, str_eqb.
  destruct (prop (u "type") event) as [| | | |s| |]; try done.
  intros H. apply bool_decide_eq_false_2. intros ->.
  vm_compute in H. discriminate.
Qed.

(** C1, as amended.  [streamChat] yields, in arrival order, exactly the
    events yielded by [apiStream] whose type is token, citations or
    debug, and ends as [apiStream] ends; an event of type reasoning is
    never yielded. *)
Theorem streamChat_forwards (fetched : Completion Response) :
  streamChat JSON_parse NumberToString fetched
  = (List.filter forwarded (apiStream JSON_parse NumberToString fetched).1,
     (apiStream JSON_parse NumberToString fetched).2) /\
  Forall (fun e => type_is (u "reasoning") e = false)
         (streamChat JSON_parse NumberToString fetched).1.
Proof.
  assert (streamChat JSON_parse NumberToString fetched
          = (List.filter forwarded
               (apiStream JSON_parse NumberToString fetched).1,
             (apiStream JSON_parse NumberToString fetched).2)) as Heq.
  { unfold streamChat.
    pose proof (apiStream_shape JSON_parse NumberToString fetched) as [Ht _].
    destruct (apiStream JSON_parse NumberToString fetched) as [evs c].
    by apply streamChat_over_filter. }
  split; [exact Heq|]. rewrite Heq. simpl.
  apply Forall_forall. intros e He.
  apply list_elem_of_In, filter_In in He as [_ He].
  by apply forwarded_not_reasoning.
Qed.

End StreamChat.

Section StreamChatExamples.
Import Js Client Chat Notions Examples.



(** C1 as stated fails: a reasoning event that the back end sends
    reaches [apiStream] and is not yielded by [streamChat]. *)
Lemma streamChat_drops_reasoning :
  (apiStream JSON_parse_ref NumberToString_int
     (Normal (ok_response chat_body))).1
  = [reasoning_event; token_event; done_event] /\
  (streamChat JSON_parse_ref NumberToString_int
     (Normal (ok_response chat_body))).1
  = [token_event].
Proof. split; vm_compute; reflexivity. Qed.

End StreamChatExamples.

(** ** handleSend and handleStop *)

Section HandleSend.
Import Js ChatTab Notions Examples.
Variable NumberToString : JsNumber -> jsstring.

Local Abbreviation messagesReducer := (messagesReducer NumberToString).
Local Abbreviation dispatch := (dispatch NumberToString).
Local Abbreviation handleSend_start := (handleSend_start NumberToString).
Local Abbreviation handleSend_event := (handleSend_event NumberToString).
Local Abbreviation handleSend_catch := (handleSend_catch NumberToString).
Local Abbreviation handleSend_loop := (handleSend_loop NumberToString).
Local Abbreviation handleSend := (handleSend NumberToString).
Local Abbreviation ToString := (ToString NumberToString).
Local Abbreviation tokens_text := (tokens_text NumberToString).




Lemma handleSend_start_props clk st st1 p :
  handleSend_start clk st = Some (st1, p) ->
  (exists m, placeholder p st1 m /\ content m = [] /\
             citations m = JUndefined) /\
  controller_inv p st1 /\ aborted (controller p) st1 = false /\
  error st1 = None.
Proof.
  unfold ChatTab.handleSend_start.
  destruct (negb _ || _); [discriminate|]. intros [= <- <-].
  cbn -[Z_toString]. unfold placeholder, controller_inv, aborted.
  cbn -[Z_toString].
  assert (forall l : list bool, (l ++ [false]) !! length l = Some false) as E.
  { intros l. by rewrite lookup_app_r, Nat.sub_diag by lia. }
  rewrite E. repeat split.
  - eexists. split; [split|].
    + rewrite <- app_assoc. simpl. by rewrite last_app.
    + reflexivity.
    + split; reflexivity.
  - rewrite length_app. simpl. lia.
  - by left.
Qed.

Lemma last_update_where mid f (state : list Message) m :
  last state = Some m ->
  last (update_where mid f state)
  = Some (if str_eqb (id m) mid then f m else m).
Proof.
  intros H. unfold update_where.
  change (map ?g state) with (g <$> state). by rewrite fmap_last, H.
Qed.

Lemma handleSend_event_placeholder p event st st' m :
  handleSend_event p event st = Normal st' ->
  placeholder p st m ->
  exists m', placeholder p st' m' /\
    content m' = content m
                 ++ (if is_str (u "token") (prop (u "type") event)
                     then ToString (prop (u "content") event) else []).
Proof.
  unfold ChatTab.handleSend_event, placeholder. intros Hev [Hlast Hid].
  destruct (get_prop event (u "type")) as [t|] eqn:Ht; [|discriminate].
  assert (prop (u "type") event = t) as -> by (unfold prop; by rewrite Ht).
  assert (str_eqb (id m) (assistantId p) = true) as Hm
    by (by apply bool_decide_eq_true_2).
  destruct (is_str (u "token") t) eqn:E1.
  { injection Hev as <-. eexists. split; [split|].
    - cbn [messages ChatTab.dispatch]. rewrite messagesReducer_append.
      rewrite (last_update_where _ _ _ m Hlast), Hm. reflexivity.
    - exact Hid.
    - reflexivity. }
  destruct (is_str (u "debug") t).
  { injection Hev as <-. exists m. by rewrite app_nil_r. }
  destruct (is_str (u "citations") t).
  { injection Hev as <-. eexists. split; [split|].
    - cbn [messages ChatTab.dispatch]. rewrite messagesReducer_citations.
      rewrite (last_update_where _ _ _ m Hlast), Hm. reflexivity.
    - exact Hid.
    - simpl. by rewrite app_nil_r. }
  injection Hev as <-. exists m. by rewrite app_nil_r.
Qed.

Lemma handleSend_event_frame p event st st' :
  handleSend_event p event st = Normal st' ->
  error st' = error st /\ abortController st' = abortController st /\
  signals st' = signals st.
Proof.
  unfold ChatTab.handleSend_event.
  destruct (get_prop event (u "type")) as [t|]; [|discriminate].
  destruct (is_str (u "token") t); [by intros [= <-]|].
  destruct (is_str (u "debug") t); [by intros [= <-]|].
  destruct (is_str (u "citations") t); by intros [= <-].
Qed.

Lemma handleStop_frame st :
  messages (handleStop st) = messages st /\ error (handleStop st) = error st.
Proof. unfold handleStop. by destruct (abortController st). Qed.

Lemma handleStop_aborts p st :
  controller_inv p st ->
  controller_inv p (handleStop st) /\
  aborted (controller p) (handleStop st) = true.
Proof.
  unfold controller_inv, handleStop, aborted.
  intros [Hlt [[Hc Ha]|[Hc Ha]]]; rewrite Hc; cbn.
  - rewrite length_insert, list_lookup_insert_eq by done. auto.
  - auto.
Qed.

(** The loop keeps the placeholder last, appends to it the text of the
    token events, leaves the error state alone, and aborts the
    controller exactly when a stop step is taken. *)
Lemma handleSend_loop_props p steps st st' m :
  handleSend_loop p steps st = (st', None) ->
  placeholder p st m -> controller_inv p st ->
  (exists m', placeholder p st' m' /\
              content m' = content m ++ tokens_text steps) /\
  error st' = error st /\ controller_inv p st' /\
  (aborted (controller p) st = true -> aborted (controller p) st' = true) /\
  (Stop ∈ steps -> aborted (controller p) st' = true) /\
  (Stop ∉ steps -> aborted (controller p) st' = aborted (controller p) st).
Proof.
  revert st m. induction steps as [|step steps IH]; intros st m.
  - intros [= <-] Hm Hinv. split_and!; try done.
    + exists m. by rewrite app_nil_r.
    + by intros ?%elem_of_nil.
  - destruct step as [event|]; cbn [ChatTab.handleSend_loop tokens_text].
    + destruct (handleSend_event p event st) as [st1|e] eqn:Hev;
        [|discriminate].
      intros Hloop Hm Hinv.
      destruct (handleSend_event_placeholder _ _ _ _ _ Hev Hm)
        as (m1 & Hm1 & Hc1).
      destruct (handleSend_event_frame _ _ _ _ Hev) as (He & Hac & Hs).
      assert (aborted (controller p) st1 = aborted (controller p) st) as Hab.
      { unfold aborted. by rewrite Hs. }
      assert (controller_inv p st1) as Hinv1.
      { unfold controller_inv in *. by rewrite Hac, Hab, Hs. }
      destruct (IH st1 m1 Hloop Hm1 Hinv1)
        as ((m' & Hm' & Hc') & He' & Hinv' & Hkeep & Hstop & Hnostop).
      split_and!; try done.
      * exists m'. split; [done|]. by rewrite Hc', Hc1, <- app_assoc.
      * congruence.
      * intros Ha. apply Hkeep. congruence.
      * intros Hin. apply Hstop. by apply elem_of_cons in Hin as [?|?].
      * intros Hnin. rewrite Hnostop; [done|].
        intros ?. apply Hnin. by right.
    + intros Hloop Hm Hinv.
      destruct (handleStop_frame st) as [Hmsgs Herr].
      destruct (handleStop_aborts p st Hinv) as [Hinv1 Hab].
      assert (placeholder p (handleStop st) m) as Hm1.
      { unfold placeholder. by rewrite Hmsgs. }
      destruct (IH (handleStop st) m Hloop Hm1 Hinv1)
        as ((m' & Hm' & Hc') & He' & Hinv' & Hkeep & Hstop & Hnostop).
      split_and!; try done.
      * by exists m'.
      * congruence.
      * auto.
      * auto.
      * intros Hnin. exfalso. apply Hnin. by left.
Qed.

Lemma handleSend_unfold clk steps ending st st1 p st2 raised :
  handleSend_start clk st = Some (st1, p) ->
  handleSend_loop p steps st1 = (st2, raised) ->
  handleSend clk steps ending st
  = handleSend_finally
      match raised, ending with
      | Some e, _ => handleSend_catch p e st2
      | None, Throw e => handleSend_catch p e st2
      | None, Normal _ => st2
      end.
Proof. intros H1 H2. unfold ChatTab.handleSend. by rewrite H1, H2. Qed.

(** C3.  When the stream that [handleSend] consumes ends with an error
    and the abort signal of the request is not set, the placeholder of
    the assistant, which held the text of the tokens received, gets the
    one token "[Error: <message>]" appended to its content and keeps
    its citations as they were; <message> is the message of the error,
    or "Failed to get response" for a thrown value that is no Error.
    The error state holds the same message. *)
Theorem handleSend_stream_error
        (clk : Clock) (steps : list Step) (err : Exn)
        (st st1 st2 : State) (p : Pending) :
  handleSend_start clk st = Some (st1, p) ->
  handleSend_loop p steps st1 = (st2, None) ->
  aborted (controller p) st2 = false ->
  let final := handleSend clk steps (Throw err) st in
  let token := u "[Error: " ++ errorMessage err ++ u "]" in
  messages final
  = messagesReducer (messages st2)
      (APPEND_TOKEN (assistantId p) (JStr token)) /\
  (exists before after,
     placeholder p st2 before /\ placeholder p final after /\
     content before = tokens_text steps /\
     content after = content before ++ token /\
     citations after = citations before) /\
  error final = Some (errorMessage err).
Proof.
  intros Hstart Hloop Hab final token. subst final.
  rewrite (handleSend_unfold _ _ _ _ _ _ _ _ Hstart Hloop).
  destruct (handleSend_start_props _ _ _ _ Hstart)
    as ((m0 & Hm0 & Hc0 & _) & Hinv & _ & _).
  destruct (handleSend_loop_props _ _ _ _ _ Hloop Hm0 Hinv)
    as ((m & Hm & Hc) & _).
  unfold ChatTab.handleSend_catch. rewrite Hab.
  split_and!; [reflexivity| |reflexivity].
  exists m, (append_content NumberToString m (JStr token)).
  split_and!; try done.
  - destruct Hm as [Hlast Hid]. split; [|exact Hid].
    cbn [messages handleSend_finally setAbortController setIsLoading
         ChatTab.dispatch setError].
    rewrite messagesReducer_append, (last_update_where _ _ _ m Hlast).
    unfold str_eqb. by rewrite bool_decide_eq_true_2.
  - by rewrite Hc, Hc0.
Qed.

(** C6.  When the user stops the request while [handleSend] awaits the
    stream, the abort signal is set by the time the stream throws; the
    list of messages is then left as the loop left it, so the
    placeholder of the assistant holds exactly the text of the tokens
    received and no "[Error: ...]" token, and the error state stays
    unset. *)
Theorem handleSend_cancelled
        (clk : Clock) (steps : list Step) (err : Exn)
        (st st1 st2 : State) (p : Pending) :
  handleSend_start clk st = Some (st1, p) ->
  handleSend_loop p steps st1 = (st2, None) ->
  Stop ∈ steps ->
  let final := handleSend clk steps (Throw err) st in
  aborted (controller p) st2 = true /\
  messages final = messages st2 /\
  (exists m, placeholder p final m /\ content m = tokens_text steps) /\
  error final = None.
Proof.
  intros Hstart Hloop Hstop final. subst final.
  rewrite (handleSend_unfold _ _ _ _ _ _ _ _ Hstart Hloop).
  destruct (handleSend_start_props _ _ _ _ Hstart)
    as ((m0 & Hm0 & Hc0 & _) & Hinv & _ & Herr).
  destruct (handleSend_loop_props _ _ _ _ _ Hloop Hm0 Hinv)
    as ((m & Hm & Hc) & Herr2 & _ & _ & Hab & _).
  specialize (Hab Hstop).
  unfold ChatTab.handleSend_catch. rewrite Hab.
  split_and!; [done|reflexivity| |].
  - exists m. split; [exact Hm|]. by rewrite Hc, Hc0.
  - cbn. congruence.
Qed.

Lemma stop_in_or_not (steps : list Step) : Stop ∈ steps \/ Stop ∉ steps.
Proof.
  induction steps as [|[event|] steps [IH|IH]].
  - right. by intros ?%elem_of_nil.
  - left. by right.
  - right. intros [?|?]%elem_of_cons; [discriminate|done].
  - left. by left.
  - left. by left.
Qed.

(** The abort signal is set at the catch exactly when a stop step was
    taken. *)
Lemma aborted_iff_stopped clk steps st st1 st2 p :
  handleSend_start clk st = Some (st1, p) ->
  handleSend_loop p steps st1 = (st2, None) ->
  aborted (controller p) st2 = true <-> Stop ∈ steps.
Proof.
  intros Hstart Hloop.
  destruct (handleSend_start_props _ _ _ _ Hstart)
    as ((m0 & Hm0 & _) & Hinv & Hab0 & _).
  destruct (handleSend_loop_props _ _ _ _ _ Hloop Hm0 Hinv)
    as (_ & _ & _ & _ & Hstop & Hnostop).
  split; [|exact Hstop].
  intros Hab. destruct (stop_in_or_not steps) as [|Hn]; [done|].
  rewrite (Hnostop Hn), Hab0 in Hab. discriminate.
Qed.

End HandleSend.

Section HandleSendExamples.
Import Js ChatTab Notions Examples.





Lemma handleSend_stream_error_witness :
  let final := handleSend NumberToString_int clk_ex [Event token_event]
                 (Throw (Error (u "HTTP 401"))) st_ex in
  messages final = [user_ex; assistant_ex (u "Hi[Error: HTTP 401]")] /\
  error final = Some (u "HTTP 401").
Proof.
  pose proof (handleSend_stream_error NumberToString_int clk_ex
                [Event token_event] (Error (u "HTTP 401")) st_ex
                _ _ _ eq_refl eq_refl eq_refl) as (Hm & _ & He).
  split; [rewrite Hm; reflexivity | exact He].
Defined.

Lemma handleSend_cancelled_witness :
  let final := handleSend NumberToString_int clk_ex
                 [Event token_event; Stop]
                 (Throw (Error (u "The user aborted a request."))) st_ex in
  messages final = [user_ex; assistant_ex (u "Hi")] /\
  error final = None.
Proof.
  pose proof (handleSend_cancelled NumberToString_int clk_ex
                [Event token_event; Stop]
                (Error (u "The user aborted a request.")) st_ex
                _ _ _ eq_refl eq_refl
                (list_elem_of_further _ _ _ (list_elem_of_here _ _)))
    as (_ & Hm & _ & He).
  split; [rewrite Hm; reflexivity | exact He].
Defined.

End HandleSendExamples.

(** * Further properties *)

(** ** The SSE generators and the framing of the body *)

Section Chunking.
Import Js Client Data Notions Framing.
Variable JSON_parse : jsstring -> Completion JsValue.
Variable NumberToString : JsNumber -> jsstring.

(** X1. [apiStream] depends on the text of the body only, not on the
    chunks in which the reader delivers it. *)
Theorem apiStream_chunking (st : Z) (failure : option Exn)
        (chunks1 chunks2 : list jsstring) :
  concat chunks1 = concat chunks2 ->
  apiStream JSON_parse NumberToString (Normal (response st chunks1 failure))
  = apiStream JSON_parse NumberToString
      (Normal (response st chunks2 failure)).
Proof.
  intros Heq. destruct (ok (response st chunks1 failure)) eqn:Hok.
  - rewrite !apiStream_ok_lines by (first [exact Hok | by eexists]).
    unfold sse_lines. cbn [body_chunks body_failure body response].
    by rewrite Heq.
  - unfold apiStream, errorMessage, json.
    change (ok (response st chunks2 failure))
      with (ok (response st chunks1 failure)).
    rewrite Hok. cbn [negb body_chunks body_failure body response].
    by rewrite Heq.
Qed.

(** X2. [importJson] depends on the text of the body only, not on the
    chunks in which the reader delivers it. *)
Theorem importJson_chunking (st : Z) (failure : option Exn)
        (chunks1 chunks2 : list jsstring) :
  concat chunks1 = concat chunks2 ->
  importJson JSON_parse (Normal (response st chunks1 failure))
  = importJson JSON_parse (Normal (response st chunks2 failure)).
Proof.
  intros Heq. destruct (ok (response st chunks1 failure)) eqn:Hok.
  - rewrite !importJson_ok_lines by (first [exact Hok | by eexists]).
    unfold sse_lines. cbn [body_chunks body_failure body response].
    by rewrite Heq.
  - unfold importJson.
    change (ok (response st chunks2 failure))
      with (ok (response st chunks1 failure)).
    by rewrite Hok.
Qed.

End Chunking.

Lemma apiStream_chunking_witness :
  Client.apiStream JSON_parse_ref Examples.NumberToString_int
    (Js.Normal (Framing.response 200 Examples.marked_body None))
  = Client.apiStream JSON_parse_ref Examples.NumberToString_int
      (Js.Normal (Framing.response 200 [concat Examples.marked_body] None)).
Proof.
  apply (apiStream_chunking JSON_parse_ref Examples.NumberToString_int).
  vm_compute. reflexivity.
Defined.

Lemma importJson_chunking_witness :
  Data.importJson JSON_parse_ref
    (Js.Normal (Framing.response 200 Examples.marked_body None))
  = Data.importJson JSON_parse_ref
      (Js.Normal (Framing.response 200 [concat Examples.marked_body] None)).
Proof.
  apply (importJson_chunking JSON_parse_ref). vm_compute. reflexivity.
Defined.

Section LineFeeds.
Import Js Notions Framing.

Lemma split_nl_no_lf s : 10 ∉ s -> split_nl s = [s].
Proof.
  induction s as [|c s IH]; [done|]. intros Hn.
  rewrite split_nl_cons. destruct (N.eqb_spec c 10) as [->|Hc].
  - exfalso. apply Hn. by left.
  - rewrite IH; [done|]. intros ?. apply Hn. by right.
Qed.

Lemma no_lf_split_nl s : split_nl s = [s] -> 10 ∉ s.
Proof.
  induction s as [|c s IH]; [intros _ ?%elem_of_nil; done|].
  rewrite split_nl_cons. pose proof (split_nl_nonempty s) as Hne.
  destruct (N.eqb_spec c 10) as [->|Hc].
  - intros [= ? ?].
  - destruct (split_nl s) as [|l ls] eqn:E; [done|]. simpl.
    intros [= -> ->]. intros [?|?]%elem_of_cons; [done|]. by apply IH.
Qed.

(** Text without a line feed, appended to a body, adds no complete
    line. *)
Lemma complete_lines_tail text tail :
  10 ∉ tail ->
  removelast (split_nl (text ++ tail)) = removelast (split_nl text).
Proof.
  intros Ht. rewrite removelast_split_nl_app.
  rewrite (split_nl_no_lf (_ ++ tail)); [apply app_nil_r|].
  intros [Hl|Hr]%elem_of_app; [|done].
  by apply (no_lf_split_nl _ (split_nl_last text)).
Qed.

Lemma trimStart_app_ws s c :
  isWhiteSpace c = true ->
  trimStart (s ++ [c]) = match trimStart s with
                         | [] => []
                         | t => t ++ [c]
                         end.
Proof.
  intros Hc. induction s as [|a s IH]; simpl.
  - by rewrite Hc.
  - destruct (isWhiteSpace a); [exact IH|done].
Qed.

(** [trim] drops a trailing white space character. *)
Lemma trim_app_ws s c : isWhiteSpace c = true -> trim (s ++ [c]) = trim s.
Proof.
  intros Hc. unfold trim, trimEnd. rewrite (trimStart_app_ws s c Hc).
  destruct (trimStart s) as [|a t]; [done|].
  rewrite reverse_app. simpl. rewrite Hc. reflexivity.
Qed.

Lemma split_nl_to_crlf s : split_nl (to_crlf s) = with_cr (split_nl s).
Proof.
  induction s as [|c s IH]; [reflexivity|].
  pose proof (split_nl_nonempty s) as Hne.
  cbn [to_crlf]. destruct (N.eqb_spec c 10) as [->|Hc].
  - rewrite (split_nl_cons 13), (split_nl_cons 10 (to_crlf s)).
    rewrite (split_nl_cons 10 s). simpl. rewrite IH.
    by destruct (split_nl s).
  - rewrite !split_nl_cons. apply N.eqb_neq in Hc. rewrite Hc, IH.
    destruct (split_nl s) as [|l [|l' ls]]; done.
Qed.

Lemma removelast_with_cr segments :
  removelast (with_cr segments)
  = map (fun l => l ++ [13]) (removelast segments).
Proof.
  induction segments as [|l [|l' ls] IH]; [done|done|].
  change (with_cr (l :: l' :: ls)) with ((l ++ [13]) :: with_cr (l' :: ls)).
  change (removelast (l :: l' :: ls)) with (l :: removelast (l' :: ls)).
  cbn [map]. rewrite <- IH. by destruct ls.
Qed.

End LineFeeds.

Section Framing.
Import Js Client Data Notions Framing.
Variable JSON_parse : jsstring -> Completion JsValue.
Variable NumberToString : JsNumber -> jsstring.

Lemma ok_response_status st chunks failure :
  (200 <= st <= 299)%Z -> ok (response st chunks failure) = true.
Proof. intros [H1 H2]. unfold ok. simpl. apply andb_true_iff. lia. Qed.

Lemma apiStream_lines_cons line rest :
  apiStream_lines JSON_parse (line :: rest)
  = match parseSseLine JSON_parse (trim line) with
    | Throw e => ([], Some (Throw e))
    | Normal event =>
        if truthy event then
          if type_is (u "done") event then ([event], Some (Normal tt))
          else let '(evs, r) := apiStream_lines JSON_parse rest in
               (event :: evs, r)
        else apiStream_lines JSON_parse rest
    end.
Proof. reflexivity. Qed.

Lemma apiStream_lines_cr lines :
  apiStream_lines JSON_parse (map (fun l => l ++ [13]) lines)
  = apiStream_lines JSON_parse lines.
Proof.
  induction lines as [|line lines IH]; [reflexivity|].
  cbn [map]. rewrite !apiStream_lines_cons, trim_app_ws, IH by reflexivity.
  reflexivity.
Qed.

Lemma importJson_lines_cr lines :
  importJson_lines JSON_parse (map (fun l => l ++ [13]) lines)
  = importJson_lines JSON_parse lines.
Proof.
  induction lines as [|line lines IH]; [reflexivity|].
  cbn [map]. rewrite !importJson_lines_cons, trim_app_ws, IH by reflexivity.
  reflexivity.
Qed.

(** X3. On a 2xx response, text without a line feed at the end of the
    body is never parsed: [apiStream] and [importJson] behave on
    [text ++ tail] as on [text].  In particular an event whose line is
    not terminated when the body ends is lost. *)
Theorem unterminated_tail_ignored (st : Z) (failure : option Exn)
        (text tail : jsstring) :
  (200 <= st <= 299)%Z -> 10 ∉ tail ->
  apiStream JSON_parse NumberToString
    (Normal (response st [text ++ tail] failure))
  = apiStream JSON_parse NumberToString
      (Normal (response st [text] failure)) /\
  importJson JSON_parse (Normal (response st [text ++ tail] failure))
  = importJson JSON_parse (Normal (response st [text] failure)).
Proof.
  intros Hst Htail.
  rewrite !apiStream_ok_lines, !importJson_ok_lines
    by (first [by apply ok_response_status | by eexists]).
  unfold sse_lines. simpl. rewrite !app_nil_r.
  by rewrite complete_lines_tail.
Qed.

(** X4. On a 2xx response, [apiStream] and [importJson] behave the same
    whether the lines of the body end in a line feed or in a carriage
    return and a line feed. *)
Theorem crlf_framing_equivalent (st : Z) (failure : option Exn)
        (text : jsstring) :
  (200 <= st <= 299)%Z ->
  apiStream JSON_parse NumberToString
    (Normal (response st [to_crlf text] failure))
  = apiStream JSON_parse NumberToString
      (Normal (response st [text] failure)) /\
  importJson JSON_parse (Normal (response st [to_crlf text] failure))
  = importJson JSON_parse (Normal (response st [text] failure)).
Proof.
  intros Hst.
  rewrite !apiStream_ok_lines, !importJson_ok_lines
    by (first [by apply ok_response_status | by eexists]).
  unfold sse_lines. simpl. rewrite !app_nil_r.
  rewrite split_nl_to_crlf, removelast_with_cr.
  by rewrite apiStream_lines_cr, importJson_lines_cr.
Qed.

(** X5. Every value that [apiStream] yields is truthy: it never yields
    null, false, zero or the empty string, so a consumer can read
    [event.type] of each. *)
Theorem apiStream_yields_truthy (fetched : Completion Response) :
  Forall (fun event => truthy event = true /\
                       get_prop event (u "type")
                       = Some (prop (u "type") event))
         (apiStream JSON_parse NumberToString fetched).1.
Proof.
  destruct (apiStream_shape JSON_parse NumberToString fetched) as [Ht _].
  eapply Forall_impl; [exact Ht|]. intros event He. split; [done|].
  by apply get_prop_truthy.
Qed.

End Framing.

Section FramingExamples.
Import Js Client Data Notions Framing Examples.

Lemma unterminated_tail_ignored_witness :
  apiStream JSON_parse_ref NumberToString_int
    (Normal (response 200
       [lf (json_text "data: {'type':'token','content':'Hi'}")
        ++ json_text "data: {'type':'citations'}"] None))
  = ([token_event], Normal tt).
Proof.
  rewrite (proj1 (unterminated_tail_ignored JSON_parse_ref NumberToString_int
    200 None (lf (json_text "data: {'type':'token','content':'Hi'}"))
    (json_text "data: {'type':'citations'}") ltac:(lia)
    ltac:(vm_compute; intros H; repeat (apply elem_of_cons in H as [H|H];
            [discriminate|]); by apply elem_of_nil in H))).
  reflexivity.
Defined.

Lemma crlf_framing_equivalent_witness :
  apiStream JSON_parse_ref NumberToString_int
    (Normal (response 200
       [to_crlf (lf (lf (json_text "data: {'type':'token','content':'Hi'}")))]
       None))
  = ([token_event], Normal tt).
Proof.
  rewrite (proj1 (crlf_framing_equivalent JSON_parse_ref NumberToString_int
    200 None (lf (lf (json_text "data: {'type':'token','content':'Hi'}")))
    ltac:(lia))).
  reflexivity.
Defined.

(** A response without a body, such as a 204: both generators throw at
    [getReader] before they yield anything. *)
Lemma generators_without_body :
  apiStream JSON_parse_ref NumberToString_int
    (Normal {| status := 204; body := None |})
  = ([], Throw (Error
                  (u "Cannot read properties of null (reading 'getReader')")))
  /\
  importJson JSON_parse_ref (Normal {| status := 204; body := None |})
  = ([], Throw (Error
                  (u "Cannot read properties of null (reading 'getReader')"))).
Proof. split; reflexivity. Qed.

(** Unlike [apiStream], [importJson] yields a null event for the line
    [data: null]. *)
Lemma importJson_yields_null :
  importJson JSON_parse_ref
    (Normal (response 200 [lf (u "data: null")] None))
  = ([JNull], Normal tt) /\
  apiStream JSON_parse_ref NumberToString_int
    (Normal (response 200 [lf (u "data: null")] None))
  = ([], Normal tt).
Proof. split; reflexivity. Qed.

End FramingExamples.

(** ** The relaying generators *)

Section RelayFacts.
Import Js Client Relays.
Variable JSON_parse : jsstring -> Completion JsValue.
Variable NumberToString : JsNumber -> jsstring.

Lemma relay_id events ending : relay events ending = (events, ending).
Proof.
  induction events as [|event events IH]; [reflexivity|].
  simpl. by rewrite IH.
Qed.

(** X7. [syncTelegram], [importJsonPath], [reindexDatabase],
    [processPendingData] and [syncChats] yield exactly the events that
    [apiStream] yields for their endpoint, in the same order, and end
    as it ends: they drop nothing, add nothing and swallow no error. *)
Theorem relays_are_transparent (fetched : Completion Response) :
  let upstream := apiStream JSON_parse NumberToString fetched in
  syncTelegram JSON_parse NumberToString fetched = upstream /\
  importJsonPath JSON_parse NumberToString fetched = upstream /\
  reindexDatabase JSON_parse NumberToString fetched = upstream /\
  processPendingData JSON_parse NumberToString fetched = upstream /\
  syncChats JSON_parse NumberToString fetched = upstream.
Proof.
  intros upstream.
  unfold syncTelegram, importJsonPath, reindexDatabase, processPendingData,
    syncChats.
  fold upstream. destruct upstream as [events ending].
  rewrite relay_id. by split_and!.
Qed.

End RelayFacts.

(** ** A whole turn of the chat tab *)

Section ChatTurn.
Import Js ChatTab Notions ChatFlow.
Variable NumberToString : JsNumber -> jsstring.

Local Abbreviation messagesReducer := (messagesReducer NumberToString).
Local Abbreviation handleSend_start := (handleSend_start NumberToString).
Local Abbreviation handleSend_event := (handleSend_event NumberToString).
Local Abbreviation handleSend_catch := (handleSend_catch NumberToString).
Local Abbreviation handleSend_loop := (handleSend_loop NumberToString).
Local Abbreviation handleSend := (handleSend NumberToString).
Local Abbreviation tokens_text := (tokens_text NumberToString).
Local Abbreviation placeholder_after := (placeholder_after NumberToString).

Lemma is_str_exclusive a b t :
  a <> b -> is_str a t = true -> is_str b t = false.
Proof.
  destruct t; try done. unfold is_str, str_eqb.
  intros Hab Ha%bool_decide_eq_true. apply bool_decide_eq_false_2. congruence.
Qed.

Lemma placeholder_after_nil m : placeholder_after m [] = m.
Proof. destruct m. unfold ChatFlow.placeholder_after. simpl. by rewrite app_nil_r. Qed.

Lemma placeholder_after_cons m step steps :
  placeholder_after (placeholder_after m [step]) steps
  = placeholder_after m (step :: steps).
Proof.
  destruct m, step; unfold ChatFlow.placeholder_after; simpl;
    by rewrite ?app_nil_r, <- ?app_assoc.
Qed.

(** One event, on the placeholder. *)
Lemma handleSend_event_last p event st st' m :
  handleSend_event p event st = Normal st' ->
  placeholder p st m ->
  placeholder p st' (placeholder_after m [Event event]).
Proof.
  unfold ChatTab.handleSend_event, placeholder. intros Hev [Hlast Hid].
  destruct (get_prop event (u "type")) as [t|] eqn:Ht; [|discriminate].
  assert (prop (u "type") event = t) as Hp by (unfold prop; by rewrite Ht).
  assert (str_eqb (id m) (assistantId p) = true) as Hm
    by (by apply bool_decide_eq_true_2).
  split; [|exact Hid].
  unfold ChatFlow.placeholder_after. cbn [Notions.tokens_text citations_after].
  rewrite Hp, app_nil_r.
  destruct (is_str (u "token") t) eqn:E1.
  { injection Hev as <-.
    rewrite (is_str_exclusive (u "token") (u "citations") t) by done.
    cbn [messages ChatTab.dispatch]. rewrite messagesReducer_append.
    by rewrite (last_update_where _ _ _ m Hlast), Hm. }
  destruct (is_str (u "debug") t) eqn:E2.
  { injection Hev as <-.
    rewrite (is_str_exclusive (u "debug") (u "citations") t) by done.
    rewrite app_nil_r. simpl. rewrite Hlast. by destruct m. }
  destruct (is_str (u "citations") t) eqn:E3.
  { injection Hev as <-.
    cbn [messages ChatTab.dispatch]. rewrite messagesReducer_citations.
    rewrite (last_update_where _ _ _ m Hlast), Hm, app_nil_r.
    by destruct m. }
  injection Hev as <-. rewrite app_nil_r, Hlast. by destruct m.
Qed.

(** The loop, on the placeholder and on the fields it never writes. *)
Lemma handleSend_loop_last p steps st st' m :
  handleSend_loop p steps st = (st', None) ->
  placeholder p st m ->
  placeholder p st' (placeholder_after m steps) /\
  error st' = error st /\ input st' = input st.
Proof.
  revert st m. induction steps as [|step steps IH]; intros st m.
  - intros [= <-] Hm. by rewrite placeholder_after_nil.
  - destruct step as [event|]; cbn [ChatTab.handleSend_loop].
    + destruct (handleSend_event p event st) as [st1|e] eqn:Hev;
        [|discriminate].
      intros Hloop Hm.
      pose proof (handleSend_event_last _ _ _ _ _ Hev Hm) as Hm1.
      destruct (IH _ _ Hloop Hm1) as (Hm' & He & Hi).
      rewrite placeholder_after_cons in Hm'. split; [exact Hm'|].
      assert (error st1 = error st /\ input st1 = input st) as [<- <-];
        [|done].
      clear -Hev. unfold ChatTab.handleSend_event in Hev.
      destruct (get_prop event (u "type")) as [t|]; [|discriminate].
      destruct (is_str (u "token") t); [by injection Hev as <-|].
      destruct (is_str (u "debug") t); [by injection Hev as <-|].
      destruct (is_str (u "citations") t); by injection Hev as <-.
    + intros Hloop Hm.
      assert (placeholder p (handleStop st) m) as Hm1.
      { unfold placeholder, handleStop in *.
        by destruct (abortController st). }
      destruct (IH _ _ Hloop Hm1) as (Hm' & He & Hi).
      assert (placeholder_after m (Stop :: steps) = placeholder_after m steps)
        as -> by reflexivity.
      split; [exact Hm'|].
      rewrite He, Hi. unfold handleStop. by destruct (abortController st).
Qed.

(** X8. When the stream ends without an error, [handleSend] leaves the
    placeholder of the assistant as the last message, holding the text
    of the token events in arrival order and the citations of the last
    citations event (none if there was none); loading is over, no
    controller is installed, the input is cleared and no error is
    set. *)
Theorem handleSend_completes
        (clk : Clock) (steps : list Step)
        (st st1 st2 : State) (p : Pending) :
  handleSend_start clk st = Some (st1, p) ->
  handleSend_loop p steps st1 = (st2, None) ->
  let final := handleSend clk steps (Normal tt) st in
  last (messages final)
  = Some {| id := assistantId p; role := assistant;
            content := tokens_text steps;
            citations := citations_after JUndefined steps;
            timestamp := date_assistant clk |} /\
  isLoading final = false /\ abortController final = None /\
  input final = [] /\ error final = None.
Proof.
  intros Hstart Hloop final. subst final.
  rewrite (handleSend_unfold _ _ _ _ _ _ _ _ _ Hstart Hloop).
  assert (placeholder p st1
            {| id := assistantId p; role := assistant; content := [];
               citations := JUndefined; timestamp := date_assistant clk |}
          /\ error st1 = None /\ input st1 = []) as (Hm0 & He0 & Hi0).
  { revert Hstart. unfold ChatTab.handleSend_start.
    destruct (negb _ || _); [discriminate|]. intros [= <- <-].
    split; [split; [|reflexivity]|by split].
    cbn -[Z_toString]. rewrite <- app_assoc. by rewrite last_app. }
  destruct (handleSend_loop_last _ _ _ _ _ Hloop Hm0) as ([Hl _] & He & Hi).
  cbn. split_and!; try done; congruence.
Qed.

End ChatTurn.

Section ChatTurnExamples.
Import Js ChatTab Notions ChatFlow Examples.

Lemma handleSend_completes_witness :
  let final :=
    handleSend NumberToString_int clk_ex
      [Event token_event;
       Event (JObj [(u "type", JStr (u "citations"));
                    (u "citations", JArr [])]);
       Event token_event] (Normal tt) st_ex in
  last (messages final)
  = Some {| id := u "1001"; role := assistant; content := u "HiHi";
            citations := JArr []; timestamp := 1001 |} /\
  isLoading final = false.
Proof.
  pose proof (handleSend_completes NumberToString_int clk_ex
    [Event token_event;
     Event (JObj [(u "type", JStr (u "citations"));
                  (u "citations", JArr [])]);
     Event token_event] st_ex _ _ _ eq_refl eq_refl) as (H1 & H2 & _).
  split; [exact H1|exact H2].
Defined.

End ChatTurnExamples.

Section ChatFrame.
Import Js ChatTab Notions ChatFlow.
Variable NumberToString : JsNumber -> jsstring.

Local Abbreviation handleSend_start := (handleSend_start NumberToString).
Local Abbreviation handleSend_event := (handleSend_event NumberToString).
Local Abbreviation handleSend_catch := (handleSend_catch NumberToString).
Local Abbreviation handleSend_loop := (handleSend_loop NumberToString).
Local Abbreviation handleSend := (handleSend NumberToString).

(** [Z_toString] prints different integers differently. *)
Lemma Z_toString_inj a b : Z_toString a = Z_toString b -> a = b.
Proof.
  unfold Z_toString, u. intros H.
  assert (forall l1 l2 : list ascii,
            map N_of_ascii l1 = map N_of_ascii l2 -> l1 = l2) as Hmap.
  { induction l1 as [|x l1 IH]; intros [|y l2]; try done.
    simpl. intros [= Hxy Hl]. f_equal; [|by apply IH].
    by rewrite <- (ascii_N_embedding x), <- (ascii_N_embedding y), Hxy. }
  apply Hmap in H.
  apply (f_equal string_of_list_ascii) in H.
  rewrite !string_of_list_ascii_of_string in H.
  apply (f_equal NilEmpty.int_of_string) in H.
  rewrite !NilEmpty.isi in H. injection H as H.
  by rewrite <- (DecimalZ.of_to a), <- (DecimalZ.of_to b), H.
Qed.

Lemma framed_refl p l : framed p l l.
Proof. by split. Qed.

Lemma framed_trans p l1 l2 l3 :
  framed p l1 l2 -> framed p l2 l3 -> framed p l1 l3.
Proof.
  intros [Hi1 Hf1] [Hi2 Hf2]. split; [congruence|]. auto.
Qed.

Lemma framed_update p f l :
  (forall m, id (f m) = id m) ->
  framed p l (update_where (assistantId p) f l).
Proof.
  intros Hf. split; [by apply update_where_ids|].
  intros i m Hi Hne. rewrite update_where_lookup, Hi. simpl.
  unfold str_eqb. by rewrite bool_decide_eq_false_2.
Qed.

Lemma handleSend_event_framed p event st st' :
  handleSend_event p event st = Normal st' ->
  framed p (messages st) (messages st').
Proof.
  unfold ChatTab.handleSend_event.
  destruct (get_prop event (u "type")) as [t|]; [|discriminate].
  destruct (is_str (u "token") t).
  { intros [= <-]. by apply framed_update. }
  destruct (is_str (u "debug") t); [intros [= <-]; apply framed_refl|].
  destruct (is_str (u "citations") t); intros [= <-];
    [by apply framed_update|apply framed_refl].
Qed.

Lemma handleSend_loop_framed p steps st st' r :
  handleSend_loop p steps st = (st', r) ->
  framed p (messages st) (messages st').
Proof.
  revert st. induction steps as [|[event|] steps IH]; intros st;
    cbn [ChatTab.handleSend_loop].
  - intros [= <- <-]. apply framed_refl.
  - destruct (handleSend_event p event st) as [st1|e] eqn:Hev.
    + intros Hloop. eapply framed_trans; [|by apply IH].
      by apply (handleSend_event_framed p event).
    + intros [= <- <-]. apply framed_refl.
  - intros Hloop. apply IH in Hloop.
    destruct (handleStop_frame st) as [<- _]. exact Hloop.
Qed.

Lemma handleSend_catch_framed p err st :
  framed p (messages st) (messages (handleSend_catch p err st)).
Proof.
  unfold ChatTab.handleSend_catch.
  destruct (aborted (controller p) st); [apply framed_refl|].
  by apply framed_update.
Qed.

Lemma handleSend_framed clk steps ending st st1 p :
  handleSend_start clk st = Some (st1, p) ->
  framed p (messages st1) (messages (handleSend clk steps ending st)).
Proof.
  intros Hstart.
  destruct (handleSend_loop p steps st1) as [st2 raised] eqn:Hloop.
  rewrite (handleSend_unfold _ _ _ ending _ _ _ _ _ Hstart Hloop).
  pose proof (handleSend_loop_framed _ _ _ _ _ Hloop) as H12.
  pose proof (fun e => handleSend_catch_framed p e st2) as Hc.
  cbn [messages handleSend_finally setAbortController setIsLoading].
  destruct raised as [e|]; [|destruct ending as [[]|e]].
  - eapply framed_trans; [exact H12|apply Hc].
  - exact H12.
  - eapply framed_trans; [exact H12|apply Hc].
Qed.

Lemma handleSend_start_messages clk st st1 p :
  handleSend_start clk st = Some (st1, p) ->
  assistantId p = Z_toString (now_assistant clk + 1) /\
  messages st1
  = messages st
    ++ [{| id := Z_toString (now_user clk); role := user;
           content := input st; citations := JUndefined;
           timestamp := date_user clk |};
        {| id := assistantId p; role := assistant; content := [];
           citations := JUndefined; timestamp := date_assistant clk |}].
Proof.
  unfold ChatTab.handleSend_start.
  destruct (negb _ || _); [discriminate|]. intros [= <- <-].
  cbn -[Z_toString]. by rewrite <- app_assoc.
Qed.

(** X9. Whatever the stream delivers and however it ends, [handleSend]
    adds exactly two messages at the end of the list, the user message
    and the placeholder, keeps the order of the messages that were
    there, and leaves unchanged every earlier message whose id differs
    from the id of the placeholder. *)
Theorem handleSend_keeps_history
        (clk : Clock) (steps : list Step) (ending : Completion unit)
        (st st1 : State) (p : Pending) :
  handleSend_start clk st = Some (st1, p) ->
  let final := handleSend clk steps ending st in
  map id (messages final)
  = map id (messages st) ++ [Z_toString (now_user clk);
                             Z_toString (now_assistant clk + 1)] /\
  forall i m, messages st !! i = Some m ->
              id m <> Z_toString (now_assistant clk + 1) ->
              messages final !! i = Some m.
Proof.
  intros Hstart final.
  destruct (handleSend_start_messages _ _ _ _ Hstart) as [Hid Hmsgs].
  destruct (handleSend_framed clk steps ending _ _ _ Hstart) as [Hids Hfr].
  fold final in Hids, Hfr. rewrite <- Hid. split.
  - rewrite Hids, Hmsgs, map_app. reflexivity.
  - intros i m Hi Hne. apply Hfr; [|done].
    rewrite Hmsgs. apply lookup_app_l_Some. exact Hi.
Qed.

(** X10. When the clock does not run backwards between the two
    readings of [handleSend], the user message and the placeholder get
    different ids, and the user message stays in the list exactly as it
    was sent, whatever the stream delivers. *)
Theorem handleSend_user_message_intact
        (clk : Clock) (steps : list Step) (ending : Completion unit)
        (st st1 : State) (p : Pending) :
  handleSend_start clk st = Some (st1, p) ->
  (now_user clk <= now_assistant clk)%Z ->
  let final := handleSend clk steps ending st in
  Z_toString (now_user clk) <> Z_toString (now_assistant clk + 1) /\
  messages final !! length (messages st)
  = Some {| id := Z_toString (now_user clk); role := user;
            content := input st; citations := JUndefined;
            timestamp := date_user clk |}.
Proof.
  intros Hstart Hclk final.
  assert (Z_toString (now_user clk) <> Z_toString (now_assistant clk + 1))
    as Hne by (intros H%Z_toString_inj; lia).
  split; [exact Hne|].
  destruct (handleSend_start_messages _ _ _ _ Hstart) as [Hid Hmsgs].
  destruct (handleSend_framed clk steps ending _ _ _ Hstart) as [_ Hfr].
  apply Hfr.
  - rewrite Hmsgs, lookup_app_r, Nat.sub_diag by lia. reflexivity.
  - simpl. by rewrite Hid.
Qed.

(** X11. While a request is in flight and has not been stopped, a
    second [handleSend] changes nothing, whatever the input holds. *)
Theorem handleSend_single_flight
        (clk clk' : Clock) (steps steps' : list Step)
        (ending' : Completion unit) (raised : option Exn)
        (st st1 st2 : State) (p : Pending) :
  handleSend_start clk st = Some (st1, p) ->
  handleSend_loop p steps st1 = (st2, raised) ->
  Stop ∉ steps ->
  isLoading st2 = true /\ handleSend clk' steps' ending' st2 = st2.
Proof.
  intros Hstart Hloop Hnostop.
  assert (isLoading st1 = true) as H1.
  { revert Hstart. unfold ChatTab.handleSend_start.
    destruct (negb _ || _); [discriminate|]. by intros [= <- <-]. }
  assert (isLoading st2 = true) as H2.
  { clear Hstart. revert st1 Hloop H1.
    induction steps as [|[event|] steps IH]; intros st1;
      cbn [ChatTab.handleSend_loop].
    - by intros [= <- <-].
    - destruct (handleSend_event p event st1) as [st'|e] eqn:Hev;
        [|by intros [= <- <-]].
      intros Hloop H1. apply (IH ltac:(intros ?; apply Hnostop; by right)
                                 st' Hloop).
      revert Hev. unfold ChatTab.handleSend_event.
      destruct (get_prop event (u "type")) as [t|]; [|discriminate].
      destruct (is_str (u "token") t); [by intros [= <-]|].
      destruct (is_str (u "debug") t); [by intros [= <-]|].
      destruct (is_str (u "citations") t); by intros [= <-].
    - exfalso. apply Hnostop. by left. }
  split; [exact H2|].
  unfold ChatTab.handleSend, ChatTab.handleSend_start.
  by rewrite H2, orb_true_r.
Qed.

End ChatFrame.

Section ChatFrameExamples.
Import Js ChatTab Notions ChatFlow Examples.

Lemma handleSend_keeps_history_witness :
  let st := {| messages := [msg_a; msg_c]; input := u "more";
               isLoading := false; abortController := None;
               error := None; debugInfo := None; signals := [] |} in
  let final := handleSend NumberToString_int clk_ex [Event token_event]
                 (Throw (Error (u "HTTP 500"))) st in
  map id (messages final) = [u "1"; u "2"; u "1000"; u "1001"] /\
  messages final !! 1%nat = Some msg_c.
Proof.
  intros st final.
  pose proof (handleSend_keeps_history NumberToString_int clk_ex
    [Event token_event] (Throw (Error (u "HTTP 500"))) st _ _ eq_refl)
    as [H1 H2].
  split; [exact H1|].
  apply (H2 1%nat msg_c eq_refl). vm_compute. discriminate.
Defined.

Lemma handleSend_user_message_intact_witness :
  let final := handleSend NumberToString_int clk_ex [Event token_event]
                 (Normal tt) st_ex in
  messages final !! 0%nat = Some user_ex.
Proof.
  pose proof (handleSend_user_message_intact NumberToString_int clk_ex
    [Event token_event] (Normal tt) st_ex _ _ eq_refl ltac:(simpl; lia))
    as [_ H].
  exact H.
Defined.

(** When the clock steps back by a millisecond between the two
    readings, both messages get the same id and the token lands in the
    user message as well. *)
Lemma handleSend_clock_stepping_back :
  let clk := {| now_user := 1001; date_user := 1001;
                now_assistant := 1000; date_assistant := 1000 |} in
  map content
    (messages (handleSend NumberToString_int clk [Event token_event]
                 (Normal tt) st_ex))
  = [u "hiHi"; u "Hi"].
Proof. reflexivity. Qed.

Lemma handleSend_single_flight_witness :
  match handleSend_start NumberToString_int clk_ex st_ex with
  | Some (st1, p) =>
      let st2 := (handleSend_loop NumberToString_int p
                    [Event token_event] st1).1 in
      handleSend NumberToString_int clk_ex [] (Normal tt) st2 = st2
  | None => False
  end.
Proof.
  assert (Stop ∉ [Event token_event]) as Hnostop.
  { intros [H|H]%elem_of_cons; [discriminate|]. by apply elem_of_nil in H. }
  pose proof (handleSend_single_flight NumberToString_int clk_ex clk_ex
    [Event token_event] [] (Normal tt) None st_ex _ _ _ eq_refl eq_refl
    Hnostop) as [_ H].
  exact H.
Defined.

End ChatFrameExamples.

Section ChatEndToEnd.
Import Js Client Chat ChatTab ChatView Notions ChatFlow.
Variable JSON_parse : jsstring -> Completion JsValue.
Variable NumberToString : JsNumber -> jsstring.

Local Abbreviation handleSend_start := (handleSend_start NumberToString).
Local Abbreviation handleSend_catch := (handleSend_catch NumberToString).
Local Abbreviation handleSend_loop := (handleSend_loop NumberToString).
Local Abbreviation handleSend := (handleSend NumberToString).
Local Abbreviation tokens_text := (tokens_text NumberToString).
Local Abbreviation placeholder_after :=
  (placeholder_after NumberToString).
Local Abbreviation apiStream := (apiStream JSON_parse NumberToString).
Local Abbreviation streamChat := (streamChat JSON_parse NumberToString).
Local Abbreviation sendChat := (sendChat JSON_parse NumberToString).

Lemma handleSend_start_placeholder clk st st1 p :
  handleSend_start clk st = Some (st1, p) ->
  placeholder p st1 (fresh_placeholder clk p).
Proof.
  intros Hstart.
  destruct (handleSend_start_messages _ _ _ _ _ Hstart) as [_ Hmsgs].
  split; [|reflexivity]. rewrite Hmsgs. by rewrite last_app.
Qed.

(** The state in which a run without error token ends, and the state
    in which a run ends whose stream threw while the signal was not
    aborted. *)
Lemma handleSend_last clk steps ending st st1 st2 p :
  handleSend_start clk st = Some (st1, p) ->
  handleSend_loop p steps st1 = (st2, None) ->
  aborted (controller p) st2 = false ->
  let final := handleSend clk steps ending st in
  let m := placeholder_after (fresh_placeholder clk p) steps in
  match ending with
  | Normal _ => last (messages final) = Some m /\ error final = None
  | Throw err =>
      last (messages final)
      = Some (append_content NumberToString m
                (JStr (u "[Error: " ++ errorMessage err ++ u "]"))) /\
      error final = Some (errorMessage err)
  end.
Proof.
  intros Hstart Hloop Hab final m. subst final.
  rewrite (handleSend_unfold _ _ _ _ _ _ _ _ _ Hstart Hloop).
  pose proof (handleSend_start_placeholder _ _ _ _ Hstart) as Hm0.
  destruct (handleSend_start_props _ _ _ _ _ Hstart) as (_ & _ & _ & He0).
  destruct (handleSend_loop_last _ _ _ _ _ _ Hloop Hm0)
    as ([Hl Hid] & He & _).
  fold m in Hl, Hid. destruct ending as [[]|err].
  - split; [exact Hl|]. cbn. congruence.
  - unfold ChatTab.handleSend_catch. rewrite Hab. split; [|reflexivity].
    cbn [messages handleSend_finally setAbortController setIsLoading
         ChatTab.dispatch setError].
    rewrite messagesReducer_append, (last_update_where _ _ _ m Hl).
    unfold str_eqb. by rewrite bool_decide_eq_true_2.
Qed.

Lemma loop_of_events p events st :
  Forall (fun e => truthy e = true) events ->
  exists st', handleSend_loop p (map Event events) st = (st', None).
Proof.
  intros Hall. revert st. induction Hall as [|event events Ht _ IH];
    intros st; [by eexists|].
  cbn [map ChatTab.handleSend_loop].
  unfold ChatTab.handleSend_event.
  rewrite (get_prop_truthy event (u "type") Ht).
  destruct (is_str (u "token") _); [apply IH|].
  destruct (is_str (u "debug") _); [apply IH|].
  destruct (is_str (u "citations") _); apply IH.
Qed.

Lemma no_stop_in_events (events : list JsValue) : Stop ∉ map Event events.
Proof.
  induction events as [|e events IH]; [by intros ?%elem_of_nil|].
  simpl. intros [?|?]%elem_of_cons; [discriminate|done].
Qed.

(** Events that [streamChat] does not forward carry neither token text
    nor citations for [handleSend]. *)
Lemma placeholder_after_forwarded m events :
  placeholder_after m (map Event (List.filter forwarded events))
  = placeholder_after m (map Event events).
Proof.
  revert m. induction events as [|event events IH]; intros m; [done|].
  cbn [List.filter]. destruct (forwarded event) eqn:Hf.
  - cbn [map].
    rewrite <- (placeholder_after_cons _ m (Event event)
                  (map Event (List.filter forwarded events))).
    rewrite <- (placeholder_after_cons _ m (Event event) (map Event events)).
    by rewrite IH.
  - cbn [map].
    rewrite <- (placeholder_after_cons _ m (Event event) (map Event events)).
    rewrite IH.
    f_equal. unfold forwarded, type_is in Hf.
    apply orb_false_iff in Hf as [Hf Hd]. apply orb_false_iff in Hf as [Ht Hc].
    unfold ChatFlow.placeholder_after.
    cbn [Notions.tokens_text citations_after]. rewrite Ht, Hc.
    destruct m; simpl. by rewrite app_nil_r.
Qed.

Lemma sendChat_last clk fetched st st1 p :
  handleSend_start clk st = Some (st1, p) ->
  let final := sendChat clk fetched st in
  let m := placeholder_after (fresh_placeholder clk p)
             (map Event (apiStream fetched).1) in
  match (apiStream fetched).2 with
  | Normal _ => last (messages final) = Some m /\ error final = None
  | Throw err =>
      last (messages final)
      = Some (append_content NumberToString m
                (JStr (u "[Error: " ++ errorMessage err ++ u "]"))) /\
      error final = Some (errorMessage err)
  end.
Proof.
  intros Hstart final m. subst final m. unfold ChatFlow.sendChat.
  pose proof (apiStream_shape JSON_parse NumberToString fetched) as [Ht _].
  unfold Chat.streamChat.
  destruct (apiStream fetched) as [events ending] eqn:E. simpl in Ht |- *.
  rewrite (streamChat_over_filter _ _ Ht).
  assert (Forall (fun e => truthy e = true) (List.filter forwarded events))
    as Htf.
  { apply Forall_forall. intros e He%list_elem_of_In%filter_In.
    rewrite Forall_forall in Ht. apply Ht, list_elem_of_In, He. }
  destruct (loop_of_events p _ st1 Htf) as [st2 Hloop].
  pose proof (handleSend_start_placeholder _ _ _ _ Hstart) as Hm0.
  destruct (handleSend_start_props _ _ _ _ _ Hstart)
    as (_ & Hinv & Hab0 & _).
  destruct (handleSend_loop_props _ _ _ _ _ _ Hloop Hm0 Hinv)
    as (_ & _ & _ & _ & _ & Hnostop).
  assert (aborted (controller p) st2 = false) as Hab.
  { rewrite Hnostop; [exact Hab0|apply no_stop_in_events]. }
  pose proof (handleSend_last clk _ ending st _ _ _ Hstart Hloop Hab) as H.
  cbv zeta in H. rewrite placeholder_after_forwarded in H. exact H.
Qed.

Lemma slice_error_token message :
  slice 8 (-1) (u "[Error: " ++ message ++ u "]") = message.
Proof.
  unfold slice. rewrite !length_app.
  change (length (u "[Error: ")) with 8%nat.
  change (length (u "]")) with 1%nat.
  change (-1 <? 0)%Z with true. change (8 <? 0)%Z with false.
  cbv iota.
  replace (Z.min 8 (Z.of_nat (8 + (length message + 1)))) with 8%Z by lia.
  replace (Z.max (Z.of_nat (8 + (length message + 1)) + -1) 0)
    with (Z.of_nat (8 + length message)) by lia.
  replace (Z.to_nat (Z.of_nat (8 + length message) - 8))
    with (length message) by lia.
  change (Z.to_nat 8) with (length (u "[Error: ")).
  rewrite drop_app_length. apply take_app_length.
Qed.

(** X12. When the stream of [/chat] ends without an error, the
    assistant message that the chat tab ends up with holds the
    contents of all token events that [apiStream] yielded, in arrival
    order, and the citations of the last citations event; events of
    any other type, such as reasoning, add nothing to it; no error is
    set. *)
Theorem sendChat_delivers
        (clk : Clock) (fetched : Completion Response)
        (st st1 : State) (p : Pending) :
  handleSend_start clk st = Some (st1, p) ->
  (apiStream fetched).2 = Normal tt ->
  let final := sendChat clk fetched st in
  let steps := map Event (apiStream fetched).1 in
  last (messages final)
  = Some {| id := assistantId p; role := assistant;
            content := tokens_text steps;
            citations := citations_after JUndefined steps;
            timestamp := date_assistant clk |} /\
  error final = None.
Proof.
  intros Hstart Hend final steps.
  pose proof (sendChat_last clk fetched _ _ _ Hstart) as H.
  cbv zeta in H. rewrite Hend in H. exact H.
Qed.

(** X13. When the back end answers the chat request with a status that
    is not 2xx, the chat tab ends up with an assistant message whose
    content is "[Error: <message>]", with <message> the message of the
    error that [apiFetch] throws for that response: the string form of
    what the response reports (its [error] or [detail] field, or
    "HTTP <status>") when it has one, and the message of the TypeError
    of converting it when it has none.  The error state holds
    <message>, and the message is rendered as the provider-error box
    showing exactly <message>. *)
Theorem sendChat_http_error
        (clk : Clock) (res : Response) (st st1 : State) (p : Pending) :
  handleSend_start clk st = Some (st1, p) ->
  ok res = false ->
  let final := sendChat clk (Normal res) st in
  let reported := Client.errorMessage JSON_parse res in
  let message :=
    if convertible reported then ToString NumberToString reported
    else u "Cannot convert object to primitive value" in
  let shown := {| id := assistantId p; role := assistant;
                  content := u "[Error: " ++ message ++ u "]";
                  citations := JUndefined;
                  timestamp := date_assistant clk |} in
  apiFetch JSON_parse NumberToString (Normal res) = Throw (Error message) /\
  last (messages final) = Some shown /\
  error final = Some message /\
  message_body shown = ProviderError message.
Proof.
  intros Hstart Hok final reported message shown.
  assert (new_Error NumberToString reported = Error message) as Hthrown.
  { rewrite new_Error_cases. unfold message.
    by destruct (convertible reported). }
  pose proof (sendChat_last clk (Normal res) _ _ _ Hstart) as H.
  cbv zeta in H. unfold Client.apiStream in H. rewrite Hok in H.
  cbn [negb fst snd map] in H. fold reported in H. rewrite Hthrown in H.
  destruct H as [Hl He].
  split_and!.
  - unfold Client.apiFetch. rewrite Hok. cbn [negb]. fold reported.
    by rewrite Hthrown.
  - exact Hl.
  - exact He.
  - unfold message_body, shown. cbn [role content].
    change (startsWith (u "[Error:") (u "[Error: " ++ message ++ u "]"))
      with true.
    cbv iota. by rewrite slice_error_token.
Qed.

(** X14. When the stream throws before any token text arrived and the
    request was not stopped, the assistant message is rendered as the
    provider-error box, and the box shows exactly the message of the
    error; when token text arrived first and does not begin with "[",
    the message is rendered as ordinary assistant text that ends in
    the error token. *)
Theorem error_box_shows_message
        (clk : Clock) (steps : list Step) (err : Exn)
        (st st1 st2 : State) (p : Pending) :
  handleSend_start clk st = Some (st1, p) ->
  handleSend_loop p steps st1 = (st2, None) ->
  aborted (controller p) st2 = false ->
  let final := handleSend clk steps (Throw err) st in
  let token := u "[Error: " ++ errorMessage err ++ u "]" in
  exists m, last (messages final) = Some m /\
    (tokens_text steps = [] ->
     message_body m = ProviderError (errorMessage err)) /\
    (forall c rest, tokens_text steps = c :: rest -> c <> 91 ->
     message_body m = AssistantText (tokens_text steps ++ token)).
Proof.
  intros Hstart Hloop Hab final token.
  pose proof (handleSend_last clk steps (Throw err) _ _ _ _
                Hstart Hloop Hab) as [Hl _].
  fold final in Hl. eexists. split; [exact Hl|].
  unfold message_body. cbn [role content append_content
    ChatFlow.placeholder_after fresh_placeholder ToString app].
  split.
  - intros ->. fold token.
    change (startsWith (u "[Error:") token) with true.
    cbv iota. apply f_equal, slice_error_token.
  - intros c rest -> Hc.
    cbn [app]. change (u "[Error:") with (91 :: u "Error:").
    cbn [startsWith]. apply N.eqb_neq in Hc. rewrite N.eqb_sym, Hc.
    reflexivity.
Qed.

End ChatEndToEnd.

Section ChatEndToEndExamples.
Import Js Client Chat ChatTab ChatView Notions ChatFlow Examples.

Lemma sendChat_delivers_witness :
  let final := sendChat JSON_parse_ref NumberToString_int clk_ex
                 (Normal (ok_response chat_body)) st_ex in
  messages final = [user_ex; assistant_ex (u "Hi")] /\ error final = None.
Proof.
  pose proof (sendChat_delivers JSON_parse_ref NumberToString_int clk_ex
    (Normal (ok_response chat_body)) st_ex _ _ eq_refl eq_refl) as [_ He].
  split; [reflexivity|exact He].
Defined.

Lemma sendChat_http_error_witness :
  let final := sendChat JSON_parse_ref NumberToString_int clk_ex
                 (Normal (response_of 401
                    (json_text "{'detail':'Invalid API key'}"))) st_ex in
  last (messages final)
  = Some (assistant_ex (u "[Error: Invalid API key]")) /\
  message_body (assistant_ex (u "[Error: Invalid API key]"))
  = ProviderError (u "Invalid API key").
Proof.
  pose proof (sendChat_http_error JSON_parse_ref NumberToString_int clk_ex
    (response_of 401 (json_text "{'detail':'Invalid API key'}")) st_ex
    _ _ eq_refl eq_refl) as (_ & Hl & _ & Hb).
  split; [exact Hl|exact Hb].
Defined.

(** An [error] field without a string form: the chat shows the message
    of the TypeError. *)
Lemma sendChat_unconvertible_error_field :
  let final := sendChat JSON_parse_ref NumberToString_int clk_ex
                 (Normal (response_of 500
                    (json_text "{'error':{'toString':1}}"))) st_ex in
  last (messages final)
  = Some (assistant_ex
            (u "[Error: Cannot convert object to primitive value]")) /\
  error final = Some (u "Cannot convert object to primitive value").
Proof. split; reflexivity. Qed.

Lemma error_box_shows_message_witness :
  exists m,
    last (messages (handleSend NumberToString_int clk_ex []
                      (Throw (Error (u "Failed to fetch"))) st_ex)) = Some m /\
    message_body m = ProviderError (u "Failed to fetch").
Proof.
  destruct (error_box_shows_message NumberToString_int clk_ex []
    (Error (u "Failed to fetch")) st_ex _ _ _ eq_refl eq_refl eq_refl)
    as (m & Hl & Hbox & _).
  exists m. split; [exact Hl|exact (Hbox eq_refl)].
Defined.

End ChatEndToEndExamples.

(** ** More on handleSave *)

Section HandleSaveMore.
Import Js SettingsTab Notions.

(** X15. The payload of [handleSave] is a part of [localSettings]: a key
    is in it only with the value it has there, and it is there exactly
    when that value is defined and, for a sensitive key, is neither the
    sentinel "****" nor the empty string.  So a secret that the user
    retyped is sent, and a secret that the user cleared is not. *)
Theorem handleSave_payload_exact
        (settings localSettings updateData : gmap jsstring JsValue)
        (key : jsstring) :
  handleSave (Some settings) localSettings = Some updateData ->
  updateData ⊆ localSettings /\
  (forall value,
     updateData !! key = Some value <->
     localSettings !! key = Some value /\ value <> JUndefined /\
     (isSensitiveField key = true ->
      value <> JStr (u "****") /\ value <> JStr [])).
Proof.
  intros [= <-]. split.
  - apply map_subseteq_spec. intros k v. rewrite updateData_lookup.
    destruct (localSettings !! k) as [w|]; [|done].
    by destruct (kept k w).
  - intros value. rewrite updateData_lookup.
    destruct (localSettings !! key) as [w|]; [|by split; [|intros [? _]]].
    unfold kept. split.
    + destruct w; try discriminate;
        (destruct (isSensitiveField key) eqn:Hs;
         [|intros [= <-]; split_and!; [done|done|discriminate]]);
        try (intros [= <-]; split_and!; [done|done|intros _; by split]).
      unfold is_str, str_eqb.
      case_bool_decide; [discriminate|]. case_bool_decide; [discriminate|].
      intros [= <-]. split_and!; [done|done|]. intros _. split; congruence.
    + intros ([= ->] & Hdef & Hsens).
      destruct value; try done; destruct (isSensitiveField key); try done.
      destruct (Hsens eq_refl) as [H1 H2]. unfold is_str, str_eqb.
      rewrite !bool_decide_eq_false_2; [done| |]; congruence.
Qed.

(** X16. Saving the payload of [handleSave] again gives the same
    payload: nothing that was sent is filtered out a second time. *)
Theorem handleSave_idempotent
        (settings localSettings updateData : gmap jsstring JsValue) :
  handleSave (Some settings) localSettings = Some updateData ->
  handleSave (Some settings) updateData = Some updateData.
Proof.
  intros [= <-]. unfold handleSave. f_equal. apply map_eq. intros key.
  rewrite !updateData_lookup.
  destruct (localSettings !! key) as [w|]; [|done].
  destruct (kept key w) eqn:Hk; [by rewrite Hk|done].
Qed.

End HandleSaveMore.

Section HandleSaveMoreExamples.
Import Js SettingsTab Notions Examples.

Lemma handleSave_payload_exact_witness :
  exists updateData,
    handleSave (Some localSettings_ex) localSettings_ex = Some updateData /\
    updateData !! u "chat_api_key" = Some (JStr (u "sk-1")) /\
    updateData ⊆ localSettings_ex.
Proof.
  eexists. split; [reflexivity|].
  pose proof (handleSave_payload_exact localSettings_ex localSettings_ex _
                (u "chat_api_key") eq_refl) as [Hsub Hiff].
  split; [|exact Hsub].
  apply Hiff. split_and!; [vm_compute; reflexivity|discriminate|].
  intros _. split; discriminate.
Defined.

Lemma handleSave_idempotent_witness :
  exists updateData,
    handleSave (Some localSettings_ex) localSettings_ex = Some updateData /\
    handleSave (Some localSettings_ex) updateData = Some updateData.
Proof.
  eexists. split; [reflexivity|].
  apply (handleSave_idempotent localSettings_ex localSettings_ex).
  reflexivity.
Defined.

End HandleSaveMoreExamples.

(** ** More on filteredChats *)

Section FilteredChatsMore.
Import Js DataTab.
Variable toLowerCase : jsstring -> jsstring.

Local Abbreviation filteredChats := (filteredChats toLowerCase).

Lemma includes_empty s : includes [] s = true.
Proof. by destruct s. Qed.

Lemma in_filteredChats chats chatsFilter searchQuery chat :
  chat ∈ filteredChats chats chatsFilter searchQuery
  <-> chat ∈ chats /\
      chat_matches toLowerCase chatsFilter searchQuery chat = true.
Proof.
  unfold DataTab.filteredChats.
  rewrite !list_elem_of_In. apply filter_In.
Qed.

(** X17. With a search that is active (the query does not trim to the
    empty string), the "all" filter lists exactly the chats that the
    "included" and the "excluded" filter list together; with a query
    that trims to the empty string it lists those of "included" and,
    of those of "excluded", the ones that have messages.  The three
    lists keep the order of the chats, and with the empty query the
    "included" filter lists every included chat. *)
Theorem filteredChats_all_splits
        (chats : list Chat) (searchQuery : jsstring) (chat : Chat) :
  (trim searchQuery <> [] ->
   (chat ∈ filteredChats chats all searchQuery <->
    chat ∈ filteredChats chats only_included searchQuery \/
    chat ∈ filteredChats chats only_excluded searchQuery)) /\
  (trim searchQuery = [] ->
   (chat ∈ filteredChats chats all searchQuery <->
    chat ∈ filteredChats chats only_included searchQuery \/
    (chat ∈ filteredChats chats only_excluded searchQuery /\
     (0 < message_count chat)%Z))) /\
  filteredChats chats only_included []
  = List.filter included chats.
Proof.
  split_and!.
  - intros Hq. rewrite !in_filteredChats. unfold chat_matches.
    set (ms := includes _ _ || includes _ _). clearbody ms.
    destruct (trim searchQuery) as [|c t] eqn:E; [done|]. simpl.
    destruct (included chat), ms, (0 <? message_count chat)%Z; simpl;
      intuition discriminate.
  - intros Hq. rewrite !in_filteredChats. unfold chat_matches.
    set (ms := includes _ _ || includes _ _). clearbody ms.
    rewrite Hq. simpl.
    destruct (Z.ltb_spec 0 (message_count chat));
      destruct (included chat), ms; simpl; intuition (discriminate || lia).
  - unfold DataTab.filteredChats. apply filter_ext. intros c.
    unfold chat_matches. rewrite (includes_empty (chat_id c)). simpl.
    by rewrite orb_true_r, andb_true_r, orb_false_r.
Qed.

End FilteredChatsMore.

Section FilteredChatsMoreExamples.
Import Js DataTab Examples.

Lemma filteredChats_all_splits_witness :
  chat_ex ∈ filteredChats ascii_toLowerCase [chat_ex] all (u "ali").
Proof.
  apply (proj1 (filteredChats_all_splits ascii_toLowerCase [chat_ex]
                  (u "ali") chat_ex)).
  - vm_compute. discriminate.
  - right. vm_compute. apply list_elem_of_here.
Defined.

End FilteredChatsMoreExamples.

(** ** The sync and import tasks of the data tab *)

Section Tasks.
Import Js DataTasks.
Variable JSON_parse : jsstring -> Completion JsValue.
Variable NumberToString : JsNumber -> jsstring.
Variable toLocaleString : JsValue -> jsstring.
Variable clock : nat -> jsstring.

Local Abbreviation handleSync_event :=
  (handleSync_event NumberToString clock).
Local Abbreviation handleSync_loop := (handleSync_loop NumberToString clock).
Local Abbreviation handleSync := (handleSync JSON_parse NumberToString clock).
Local Abbreviation handleImport_event :=
  (handleImport_event toLocaleString clock).
Local Abbreviation handleImport_loop :=
  (handleImport_loop toLocaleString clock).
Local Abbreviation handleImport :=
  (handleImport JSON_parse NumberToString toLocaleString clock).
Local Abbreviation is_done := (Client.type_is (u "done")).

(** The sync loop on truthy events: it does not throw, and the status
    becomes success at the first done event and stays. *)
Lemma handleSync_loop_status events k t :
  Forall (fun e => truthy e = true) events ->
  status t = running \/ status t = success ->
  exists t', handleSync_loop k events t = (t', None) /\
    status t' = if existsb is_done events then success else status t.
Proof.
  intros Hall. revert k t.
  induction Hall as [|event events Ht _ IH]; intros k t Hst;
    [by eexists|].
  cbn [DataTasks.handleSync_loop existsb].
  unfold DataTasks.handleSync_event, Client.type_is.
  rewrite (get_prop_truthy event (u "type") Ht).
  destruct (is_str (u "progress") (prop (u "type") event)) eqn:Ep.
  - rewrite (is_str_exclusive (u "progress") (u "done") _ ltac:(done) Ep).
    apply (IH (S k) (with_message t _) Hst).
  - destruct (is_str (u "done") (prop (u "type") event)) eqn:Ed.
    + match goal with
      | |- context [DataTasks.handleSync_loop _ _ _ _ ?t0] =>
          destruct (IH (S k) t0) as (t' & Hl & Hs); [by right|]
      end.
      exists t'. split; [exact Hl|]. rewrite Hs. simpl.
      by destruct (existsb _ _).
    + apply (IH (S k) t Hst).
Qed.

(** X19. [handleSync], started while no sync is running, leaves the
    sync state failed when the stream throws, success when the stream
    ends after an event of type done, and still running when the stream
    ends without error and without such an event; in that last case
    every later [handleSync] returns at its guard and changes nothing. *)
Theorem handleSync_outcome (fetched fetched' : Completion Client.Response)
        (syncState : TaskState) :
  is_running syncState = false ->
  let events := (Client.apiStream JSON_parse NumberToString fetched).1 in
  let ending := (Client.apiStream JSON_parse NumberToString fetched).2 in
  let final := handleSync fetched syncState in
  status final
  = match ending with
    | Throw _ => failed
    | Normal _ => if existsb is_done events then success else running
    end /\
  (status final = running -> handleSync fetched' final = final).
Proof.
  intros Hidle events ending final.
  assert (status final
          = match ending with
            | Throw _ => failed
            | Normal _ => if existsb is_done events then success else running
            end) as Hfinal.
  { subst final events ending. unfold DataTasks.handleSync.
    rewrite Hidle. unfold Relays.syncTelegram.
    pose proof (apiStream_shape JSON_parse NumberToString fetched)
      as [Ht _].
    destruct (Client.apiStream JSON_parse NumberToString fetched)
      as [evs c]. rewrite relay_id. simpl in Ht |- *.
    edestruct (handleSync_loop_status evs 0) as (t' & -> & Hs);
      [exact Ht|by left|].
    destruct c as [[]|e]; [exact Hs|reflexivity]. }
  split; [exact Hfinal|].
  intros Hrun. unfold DataTasks.handleSync, is_running. by rewrite Hrun.
Qed.

(** The import loop from a running state: the status is running or
    success, and the file selection is cleared once it is success. *)
Lemma handleImport_loop_status events k tab tab' raised :
  handleImport_loop k events tab = (tab', raised) ->
  status (importState tab) = running \/
  (status (importState tab) = success /\ selectedFile tab = false) ->
  status (importState tab') = running \/
  (status (importState tab') = success /\ selectedFile tab' = false).
Proof.
  revert k tab. induction events as [|event events IH]; intros k tab;
    cbn [DataTasks.handleImport_loop].
  - by intros [= <- <-].
  - destruct (handleImport_event k event tab) as [tab1|e] eqn:Hev;
      [|by intros [= <- <-]].
    intros Hloop Hst. apply (IH _ _ Hloop).
    revert Hev. unfold DataTasks.handleImport_event.
    destruct (get_prop event (u "type")) as [t|]; [|discriminate].
    destruct (is_str (u "progress") t); [by intros [= <-]|].
    destruct (is_str (u "done") t); intros [= <-]; [by right|done].
Qed.

(** X18. [handleImport], once past its guard, never leaves the import
    state running: it ends failed when the stream or the handling of an
    event throws, and otherwise success or idle; and when it ends
    success the file selection has been cleared. *)
Theorem handleImport_outcome (fetched : Completion Client.Response)
        (tab : ImportTab) :
  canStart tab = true -> is_running (importState tab) = false ->
  let final := handleImport fetched tab in
  status (importState final) <> running /\
  (status (importState final) = success -> selectedFile final = false).
Proof.
  intros Hcan Hidle final. subst final. unfold DataTasks.handleImport.
  rewrite Hcan, Hidle. cbn [negb orb].
  destruct (if useLocalPath tab then _ else _) as [events ending].
  destruct (handleImport_loop 0 events _) as [tab2 raised] eqn:Hloop.
  apply handleImport_loop_status in Hloop; [|by left].
  destruct raised as [e|]; [by split|].
  destruct ending as [[]|e]; [|by split].
  unfold is_running. cbn [importState setImportState selectedFile].
  destruct Hloop as [Hr|[Hs Hf]]; [rewrite Hr|rewrite Hs]; cbn;
    split; try done.
  by rewrite Hs.
Qed.



End Tasks.

Section TasksExamples.
Import Js DataTasks Examples TaskExamples.

Lemma handleSync_outcome_witness :
  status (handleSync JSON_parse_ref NumberToString_int clock_ex
            (Normal (ok_response import_body)) idle_state) = success /\
  status (handleSync JSON_parse_ref NumberToString_int clock_ex
            (Normal (ok_response cut_body)) idle_state) = running.
Proof.
  split.
  - exact (proj1 (handleSync_outcome JSON_parse_ref NumberToString_int
      clock_ex (Normal (ok_response import_body))
      (Normal (ok_response import_body)) idle_state eq_refl)).
  - exact (proj1 (handleSync_outcome JSON_parse_ref NumberToString_int
      clock_ex (Normal (ok_response cut_body))
      (Normal (ok_response cut_body)) idle_state eq_refl)).
Defined.

Lemma handleImport_outcome_witness :
  let final := handleImport JSON_parse_ref NumberToString_int
                 toLocaleString_int clock_ex
                 (Normal (ok_response import_body)) upload_tab in
  status (importState final) <> running /\ selectedFile final = false.
Proof.
  pose proof (handleImport_outcome JSON_parse_ref NumberToString_int
    toLocaleString_int clock_ex (Normal (ok_response import_body))
    upload_tab eq_refl eq_refl) as [H1 H2].
  split; [exact H1|apply H2; reflexivity].
Defined.


(** The message that a successful upload import leaves. *)
Lemma handleImport_message_example :
  message (importState
             (handleImport JSON_parse_ref NumberToString_int
                toLocaleString_int clock_ex
                (Normal (ok_response import_body)) upload_tab))
  = JStr (u "Imported 3 messages. Run Reindex to make them searchable.").
Proof. reflexivity. Qed.

End TasksExamples.

(** ** Lines that are not data lines *)

Section OtherLines.
Import Js Client Data Notions Framing.
Variable JSON_parse : jsstring -> Completion JsValue.
Variable NumberToString : JsNumber -> jsstring.

Lemma apiStream_lines_data_only lines :
  apiStream_lines JSON_parse (List.filter is_data_line lines)
  = apiStream_lines JSON_parse lines.
Proof.
  induction lines as [|line lines IH]; [reflexivity|].
  cbn [List.filter]. unfold is_data_line at 1.
  destruct (startsWith (u "data: ") (trim line)) eqn:Hs.
  - by rewrite !apiStream_lines_cons, IH.
  - rewrite apiStream_lines_cons. unfold parseSseLine. rewrite Hs. exact IH.
Qed.

Lemma importJson_lines_data_only lines :
  importJson_lines JSON_parse (List.filter is_data_line lines)
  = importJson_lines JSON_parse lines.
Proof.
  induction lines as [|line lines IH]; [reflexivity|].
  cbn [List.filter]. unfold is_data_line at 1.
  destruct (startsWith (u "data: ") (trim line)) eqn:Hs.
  - by rewrite !importJson_lines_cons, IH.
  - rewrite importJson_lines_cons, Hs. exact IH.
Qed.

(** X21. On a 2xx response, only the lines that start with "data: "
    once trimmed count: two bodies with the same such lines, in the
    same order, make [apiStream] behave the same, and [importJson] too.
    Blank lines, comment lines such as the keep-alive ": ping", and
    lines of other fields ("event:", "id:", "data:" without the space)
    yield nothing and end nothing. *)
Theorem only_data_lines_count (st : Z) (failure : option Exn)
        (chunks1 chunks2 : list jsstring) :
  (200 <= st <= 299)%Z ->
  List.filter is_data_line (sse_lines chunks1)
  = List.filter is_data_line (sse_lines chunks2) ->
  apiStream JSON_parse NumberToString (Normal (response st chunks1 failure))
  = apiStream JSON_parse NumberToString
      (Normal (response st chunks2 failure)) /\
  importJson JSON_parse (Normal (response st chunks1 failure))
  = importJson JSON_parse (Normal (response st chunks2 failure)).
Proof.
  intros Hst Hlines.
  rewrite !apiStream_ok_lines, !importJson_ok_lines
    by (first [by apply ok_response_status | by eexists]).
  cbn [body_chunks body_failure body response].
  rewrite <- (apiStream_lines_data_only (sse_lines chunks1)).
  rewrite <- (apiStream_lines_data_only (sse_lines chunks2)).
  rewrite <- (importJson_lines_data_only (sse_lines chunks1)).
  rewrite <- (importJson_lines_data_only (sse_lines chunks2)).
  by rewrite Hlines.
Qed.

End OtherLines.

Section OtherLinesExamples.
Import Js Client Data Notions Framing Examples.

Lemma only_data_lines_count_witness :
  apiStream JSON_parse_ref NumberToString_int
    (Normal (response 200
       [crlf2 (u ": ping") ++ crlf2 (u "event: message")
        ++ crlf2 (json_text "data:{'type':'token','content':'lost'}")
        ++ crlf2 (json_text "data: {'type':'token','content':'Hi'}")]
       None))
  = ([token_event], Normal tt).
Proof.
  rewrite (proj1 (only_data_lines_count JSON_parse_ref NumberToString_int
    200 None
    [crlf2 (u ": ping") ++ crlf2 (u "event: message")
     ++ crlf2 (json_text "data:{'type':'token','content':'lost'}")
     ++ crlf2 (json_text "data: {'type':'token','content':'Hi'}")]
    [json_text "data: {'type':'token','content':'Hi'}" ++ [13; 10]]
    ltac:(lia) eq_refl)).
  reflexivity.
Defined.

End OtherLinesExamples.
